(** * Project Nyaya: the context-fusion retrieval pipeline

    A shallow embedding of [backend/web_fetcher.py] (page fetcher, response
    cache, fusion engine) and of the context steps of [_call_groq_analyze]
    in [backend/main.py], with the properties of the specification proved
    or refuted against it.

    Modelling conventions
    - A Python [str] is a list of Unicode code points ([str := list N]), so
      that [len] is [length] also for the labels holding an em dash.
    - [time.time()] yields a number of seconds, a binary64 float in the
      code and a rational ([Q]) here; the age [time.time() - ts] is the
      difference rounded as the float subtraction rounds it ([round64]).
    - The module-level dict [_cache] is a [gmap] threaded through an
      explicit [world], next to the log of the calls of [client.get] made
      so far.
    - A coroutine is a finite tree of actions ([prog]); [await client.get]
      is the only action at which it suspends.  [asyncio.gather] is run by
      an event-driven scheduler ([step], [exec]) that interleaves the
      tasks in any order.
    - Calls to [logger] have no effect on any value and are left out. *)

From Stdlib Require Import ZArith QArith Lqa String Ascii.
From stdpp Require Import gmap list.

Close Scope Q_scope.

(** ** Strings *)

Abbreviation str := (list N).

Fixpoint lit (s : string) : str :=
  match s with
  | EmptyString => []
  | String a s' => N_of_ascii a :: lit s'
  end.

Arguments lit : simpl never.

(** U+000A, written [\n] in the source. *)
Definition nl : str := [10%N].

(** U+2014, the em dash of the configured labels. *)
Definition emdash : str := [8212%N].

(** [sep.join(parts)] *)
Fixpoint join (sep : str) (parts : list str) : str :=
  match parts with
  | [] => []
  | [x] => x
  | x :: rest => x ++ sep ++ join sep rest
  end.

(** Truth value of a string: [bool(s)] is [len(s) != 0]. *)
Definition truthy (s : str) : bool :=
  match s with [] => false | _ :: _ => true end.

(** ** Configuration ([web_fetcher.py], lines 28-33) *)

Definition CACHE_TTL : Q := 3600 # 1.
Definition MIN_CONTENT_LEN : nat := 100.
Definition MAX_PARAGRAPHS : nat := 50.
Definition MAX_CHARS_PER_SOURCE : nat := 3500.

(** ** Float arithmetic *)

Section Binary64.

Local Open Scope Z_scope.

(** [z * 2^e] as a rational. *)
Definition scale2 (z e : Z) : Q :=
  if 0 <=? e then inject_Z (z * 2 ^ e) else z # Z.to_pos (2 ^ (- e)).

(** Whether [2^k <= n / d]. *)
Definition pow2_le (k n d : Z) : bool :=
  if 0 <=? k then d * 2 ^ k <=? n else d <=? n * 2 ^ (- k).

(** The binary exponent of [n / d]: the [k] with [2^k <= n / d < 2^(k+1)]. *)
Definition exponent (n d : Z) : Z :=
  let k0 := Z.log2 n - Z.log2 d in
  if pow2_le k0 n d then k0 else k0 - 1.

(** The integer nearest to [num / den], the even one of two at the same
    distance. *)
Definition nearest (num den : Z) : Z :=
  let q := num / den in
  let r := num mod den in
  if 2 * r <? den then q
  else if den <? 2 * r then q + 1
  else if Z.even q then q else q + 1.

(** The value of a float operation whose exact result is [x]: [x] rounded
    to the nearest number with a 53-bit significand, ties to the even
    significand; below [2^-1022] the spacing stays at [2^-1074]. *)
Definition round64 (x : Q) : Q :=
  let n := Z.abs (Qnum x) in
  let d := Zpos (Qden x) in
  if n =? 0 then 0%Q
  else
    let e := Z.max (exponent n d - 52) (-1074) in
    let m := if e <? 0 then nearest (n * 2 ^ (- e)) d else nearest n (d * 2 ^ e) in
    scale2 (Z.sgn (Qnum x) * m) e.

End Binary64.

(** ** The registry of government sources (lines 39-86) *)

Record source : Type := Source { url : str; label : str }.

Definition RTI_sources : list source :=
  [ Source (lit "https://rtionline.gov.in/")
      (lit "RTI Online Portal " ++ emdash ++ lit " Official Portal (NIC / DoPT)");
    Source (lit "https://cic.gov.in/")
      (lit "Central Information Commission (CIC) " ++ emdash ++ lit " Official Portal");
    Source (lit "https://doj.gov.in/right-to-information")
      (lit "Department of Justice " ++ emdash ++ lit " Right to Information");
    Source (lit "https://www.indiacode.nic.in/handle/123456789/1879")
      (lit "India Code " ++ emdash
         ++ lit " Right to Information Act 2005 (Official Legislation Repository)") ].

Definition DV_sources : list source :=
  [ Source (lit "https://www.indiacode.nic.in/handle/123456789/15436")
      (lit "India Code " ++ emdash
         ++ lit " Protection of Women from Domestic Violence Act 2005");
    Source (lit "https://nalsa.gov.in/")
      (lit "National Legal Services Authority (NALSA) " ++ emdash ++ lit " Free Legal Aid");
    Source (lit "https://cic.gov.in/")
      (lit "Central Information Commission " ++ emdash ++ lit " Legal Resources") ].

Definition Divorce_sources : list source :=
  [ Source (lit "https://www.indiacode.nic.in/handle/123456789/2055")
      (lit "India Code " ++ emdash
         ++ lit " Hindu Marriage Act 1955 (Official Legislation Repository)");
    Source (lit "https://nalsa.gov.in/")
      (lit "National Legal Services Authority (NALSA) " ++ emdash
         ++ lit " Free Legal Aid for Family Disputes");
    Source (lit "https://doj.gov.in/right-to-information")
      (lit "Department of Justice " ++ emdash ++ lit " Legal Resources") ].

Definition GOVERNMENT_SOURCES : gmap str (list source) :=
  <[lit "RTI" := RTI_sources]>
    (<[lit "Domestic Violence" := DV_sources]>
       (<[lit "Divorce" := Divorce_sources]> ∅)).

(** ** The world a fetch runs in *)

Record world : Type := World {
  _cache : gmap str (str * Q);   (* url -> (text, timestamp) *)
  requests : list str            (* the url of every call of client.get, oldest first *)
}.

(** What [client.get] hands back when it does not raise. *)
Record response : Type := Response { status_code : Z; text : str }.

(** The exceptions a fetch can meet.  All three derive from [Exception];
    [OtherException] stands for any class that is neither an
    [httpx.TimeoutException] nor an [httpx.NetworkError]. *)
Inductive exn : Type := TimeoutException | NetworkError | OtherException.

(** Outcome of a call that may raise. *)
Definition raising (A : Type) : Type := (exn + A)%type.

(** ** Coroutines as trees of actions *)

Inductive action : Type :=
| Now                                   (* time.time() *)
| CacheGet (u : str)                    (* u in _cache, _cache[u] *)
| CachePut (u : str) (entry : str * Q)  (* _cache[u] = entry *)
| HttpGet (u : str).                    (* await client.get(u, headers=_HEADERS) *)

Definition answer (a : action) : Type :=
  match a with
  | Now => Q
  | CacheGet _ => option (str * Q)
  | CachePut _ _ => unit
  | HttpGet _ => raising response
  end.

Inductive prog (A : Type) : Type :=
| Ret (a : A)
| Do (a : action) (k : answer a → prog A).
Arguments Ret {A} a.
Arguments Do {A} a k.

Fixpoint bind {A B} (p : prog A) (f : A → prog B) : prog B :=
  match p with
  | Ret a => f a
  | Do a k => Do a (λ x, bind (k x) f)
  end.

Notation "x ⇐ p ;; q" := (bind p (λ x, q))
  (at level 100, p at next level, right associativity, only parsing).

Definition time_time : prog Q := Do Now Ret.
Definition cache_get (u : str) : prog (option (str * Q)) := Do (CacheGet u) Ret.
Definition cache_set (u : str) (entry : str * Q) : prog unit := Do (CachePut u entry) Ret.
Definition client_get (u : str) : prog (raising response) := Do (HttpGet u) Ret.

(** A task of the event loop: scheduled but not yet run, suspended in
    [await client.get], or finished with its result. *)
Inductive task (A : Type) : Type :=
| Ready (p : prog A)
| Blocked (u : str) (k : raising response → prog A)
| Done (r : A).
Arguments Ready {A} p.
Arguments Blocked {A} u k.
Arguments Done {A} r.

(** Run a coroutine up to its next suspension.  Everything but the GET is
    synchronous; the call of [client.get] is recorded in [requests] with
    the url it is given.  The client follows redirects (line 204): the
    requests it sends to other urls inside one call are not recorded. *)
Fixpoint advance {A} (p : prog A) (now : Q) (w : world) : task A * world :=
  match p with
  | Ret a => (Done a, w)
  | Do a k =>
      match a return (answer a → prog A) → task A * world with
      | Now => λ k, advance (k now) now w
      | CacheGet u => λ k, advance (k (_cache w !! u)) now w
      | CachePut u entry =>
          λ k, advance (k tt) now (World (<[u := entry]> (_cache w)) (requests w))
      | HttpGet u => λ k, (Blocked u k, World (_cache w) (requests w ++ [u]))
      end k
  end.

(** ** The cooperative scheduler behind [asyncio.gather] *)

(** What the event loop can do for task [i]: run it for the first time, or
    resume it with the outcome of its GET.  [now] is the clock reading
    while the task runs. *)
Inductive event : Type :=
| Run (i : nat) (now : Q)
| Reply (i : nat) (r : raising response) (now : Q).

Definition step_tasks {A} (e : event) (w : world) (ts : list (task A))
  : option (world * list (task A)) :=
  match e with
  | Run i now =>
      match ts !! i with
      | Some (Ready p) =>
          let '(t, w') := advance p now w in Some (w', <[i := t]> ts)
      | _ => None
      end
  | Reply i r now =>
      match ts !! i with
      | Some (Blocked u k) =>
          let '(t, w') := advance (k r) now w in Some (w', <[i := t]> ts)
      | _ => None
      end
  end.

(** [asyncio.gather] with [return_exceptions=True]: the results of all
    the tasks, in the order of the arguments, once every task is done. *)
Fixpoint gathered {A} (ts : list (task A)) : option (list A) :=
  match ts with
  | [] => Some []
  | Done r :: ts' => match gathered ts' with Some rs => Some (r :: rs) | None => None end
  | _ :: _ => None
  end.

(** A coroutine that awaits at most one [gather] and then computes its
    return value from the gathered results. *)
Inductive coro (R A : Type) : Type :=
| CRet (a : A)
| CGather (ps : list (prog R)) (k : list R → A).
Arguments CRet {R A} a.
Arguments CGather {R A} ps k.

Definition coro_map {R A B} (f : A → B) (c : coro R A) : coro R B :=
  match c with
  | CRet a => CRet (f a)
  | CGather ps k => CGather ps (λ rs, f (k rs))
  end.

Inductive cstate (R A : Type) : Type :=
| Finished (a : A)
| Gathering (ts : list (task R)) (k : list R → A).
Arguments Finished {R A} a.
Arguments Gathering {R A} ts k.

Definition start {R A} (c : coro R A) : cstate R A :=
  match c with
  | CRet a => Finished a
  | CGather ps k => Gathering (Ready <$> ps) k
  end.

Definition step {R A} (e : event) (st : world * cstate R A)
  : option (world * cstate R A) :=
  match st with
  | (_, Finished _) => None
  | (w, Gathering ts k) =>
      match step_tasks e w ts with
      | Some (w', ts') => Some (w', Gathering ts' k)
      | None => None
      end
  end.

Fixpoint exec {R A} (es : list event) (st : world * cstate R A)
  : option (world * cstate R A) :=
  match es with
  | [] => Some st
  | e :: es' => match step e st with Some st' => exec es' st' | None => None end
  end.

(** The same run, on the tasks of a gather alone. *)
Fixpoint exec_tasks {A} (es : list event) (w : world) (ts : list (task A))
  : option (world * list (task A)) :=
  match es with
  | [] => Some (w, ts)
  | e :: es' =>
      match step_tasks e w ts with
      | Some (w', ts') => exec_tasks es' w' ts'
      | None => None
      end
  end.

(** The value the coroutine has returned, if it has returned. *)
Definition result_of {R A} (cs : cstate R A) : option A :=
  match cs with
  | Finished a => Some a
  | Gathering ts k =>
      match gathered ts with Some rs => Some (k rs) | None => None end
  end.

Definition cstate_map {R A B} (f : A → B) (cs : cstate R A) : cstate R B :=
  match cs with
  | Finished a => Finished (f a)
  | Gathering ts k => Gathering ts (λ rs, f (k rs))
  end.

(** The number of tasks that have not been run yet. *)
Fixpoint unstarted {A} (ts : list (task A)) : nat :=
  match ts with
  | [] => 0
  | Ready _ :: ts' => S (unstarted ts')
  | _ :: ts' => unstarted ts'
  end.

(** ** The page fetcher and the fusion engine *)

Section Fetcher.

(** [_extract_text] (lines 104-137) parses HTML with BeautifulSoup; it is
    taken as a parameter, and may raise like any call of the [try] block. *)
Variable _extract_text : str → raising str.

(** The f-string "[Source: {label}]\n{text}". *)
Definition tagged (label text : str) : str :=
  lit "[Source: " ++ label ++ lit "]" ++ nl ++ text.

(** [time.time() - ts < CACHE_TTL], on the float the subtraction yields. *)
Definition fresh (now ts : Q) : bool :=
  negb (Qle_bool CACHE_TTL (round64 (now - ts))).

(** The [try] block after its [await] (lines 160-172), given what
    [client.get] produced. *)
Definition after_get (url label : str) (r : raising response)
  : prog (raising (option str)) :=
  match r with
  | inl exc => Ret (inl exc)
  | inr resp =>
      if bool_decide (status_code resp ≠ 200%Z) then Ret (inr None)
      else
        match _extract_text (text resp) with
        | inl exc => Ret (inl exc)
        | inr text =>
            if bool_decide (length text < MIN_CONTENT_LEN) then Ret (inr None)
            else
              let text := take MAX_CHARS_PER_SOURCE text in
              now ⇐ time_time ;;
              _ ⇐ cache_set url (text, now) ;;
              Ret (inr (Some (tagged label text)))
        end
  end.

(** The body of the [try] block (lines 158-172). *)
Definition try_block (url label : str) : prog (raising (option str)) :=
  r ⇐ client_get url ;; after_get url label r.

(** The two [except] clauses (lines 174-179): each returns [None]. *)
Definition except_clauses (r : raising (option str)) : raising (option str) :=
  match r with
  | inl TimeoutException | inl NetworkError => inr None
  | inl OtherException => inr None
  | inr v => inr v
  end.

Definition try_except (url label : str) : prog (raising (option str)) :=
  r ⇐ try_block url label ;; Ret (except_clauses r).

(** What is left of [try_except] once the GET has been answered. *)
Definition resume (url label : str) (r : raising response)
  : prog (raising (option str)) :=
  r' ⇐ after_get url label r ;; Ret (except_clauses r').

(** [_fetch_one] (lines 145-179).  The result is [inl exc] if the
    coroutine raises, [inr None] or [inr (Some s)] if it returns. *)
Definition _fetch_one (source : source) : prog (raising (option str)) :=
  let url := url source in
  let label := label source in
  hit ⇐ cache_get url ;;
  match hit with
  | Some (text, ts) =>
      now ⇐ time_time ;;
      if fresh now ts then Ret (inr (Some (tagged label text)))
      else try_except url label
  | None => try_except url label
  end.

(** Whether the cache answers a fetch of [u] at time [now] (lines 151-153). *)
Definition serves (w : world) (u : str) (now : Q) : bool :=
  match _cache w !! u with
  | Some (_, ts) => fresh now ts
  | None => false
  end.

(** The text a reply contributes: the extracted text cut to the character
    budget when the status is 200 and the text is long enough. *)
Definition usable (r : raising response) : option str :=
  match r with
  | inl _ => None
  | inr resp =>
      if bool_decide (status_code resp ≠ 200%Z) then None
      else
        match _extract_text (text resp) with
        | inl _ => None
        | inr text =>
            if bool_decide (length text < MIN_CONTENT_LEN) then None
            else Some (take MAX_CHARS_PER_SOURCE text)
        end
  end.


(** The states a task created from [_fetch_one source] goes through. *)
Definition fetch_task (source : source) (t : task (raising (option str))) : Prop :=
  t = Ready (_fetch_one source)
  ∨ t = Blocked (url source) (resume (url source) (label source))
  ∨ t = Done (inr None)
  ∨ ∃ text, t = Done (inr (Some (tagged (label source) text))).

(** The separator of the combined text, "\n\n---\n\n". *)
Definition separator : str := nl ++ nl ++ lit "---" ++ nl ++ nl.

(** [isinstance(result, str) and result] *)
Definition accepted (result : raising (option str)) : option str :=
  match result with
  | inr (Some s) => if truthy s then Some s else None
  | _ => None
  end.

(** The loop of lines 210-215 over [zip(sources[:3], results)]. *)
Fixpoint accept (pairs : list (source * raising (option str)))
    (combined sources_used : list str) : list str * list str :=
  match pairs with
  | [] => (combined, sources_used)
  | (src, result) :: rest =>
      let '(combined, sources_used) :=
        match accepted result with
        | Some s => (combined ++ [s], sources_used ++ [label src])
        | None => (combined, sources_used)
        end in
      if bool_decide (2 ≤ length combined) then (combined, sources_used)
      else accept rest combined sources_used
  end.

(** The accepted results of [pairs] with the labels of their sources, in
    the order of [pairs]. *)
Definition hits (pairs : list (source * raising (option str))) : list (str * str) :=
  omap (λ '(src, result), (λ s, (s, label src)) <$> accepted result) pairs.

(** Lines 199-200 and 210-217: the loop run on empty lists, then the join. *)
Definition assemble (sources : list source) (results : list (raising (option str)))
  : str * list str :=
  let '(combined, sources_used) := accept (zip sources results) [] [] in
  (join separator combined, sources_used).

(** [fetch_government_context] (lines 187-217). *)
Definition fetch_government_context (intent : str)
  : coro (raising (option str)) (str * list str) :=
  let sources := default [] (GOVERNMENT_SOURCES !! intent) in
  if bool_decide (sources = []) then CRet ([], [])
  else CGather (_fetch_one <$> take 3 sources) (assemble (take 3 sources)).

(** [get_available_sources] (lines 220-222). *)
Definition get_available_sources (intent : str) : list str :=
  url <$> default [] (GOVERNMENT_SOURCES !! intent).

(** ** The context steps of [_call_groq_analyze] ([main.py], lines 855-885) *)

(** Lines 863-865: the topic of the nearest chunk, "RTI" by default.
    [metadatas] is [top_results["metadatas"]]: [None], or one list of
    metadata dicts per query text. *)
Definition dominant_intent_of (metadatas : option (list (list (gmap str str)))) : str :=
  match metadatas with
  | Some ((m :: _) :: _) => default (lit "RTI") (m !! lit "topic")
  | _ => lit "RTI"
  end.

Record fused : Type := Fused {
  context_source : str;
  sources_used : list str;
  fused_context : str
}.

Definition WEB_RAG : str := lit "WEB+RAG".
Definition RAG : str := lit "RAG".

Definition live_banner : str :=
  lit "=== LIVE DATA FROM OFFICIAL GOVERNMENT PORTALS ===" ++ nl.
Definition additional_banner : str :=
  lit "=== ADDITIONAL CONTEXT FROM LEGAL KNOWLEDGE BASE ===" ++ nl.
Definition knowledge_banner : str :=
  lit "=== CONTEXT FROM LEGAL KNOWLEDGE BASE ===" ++ nl.

(** Step 3, lines 871-885. *)
Definition fuse_contexts (web_context : str) (used : list str) (rag_context : str)
  : fused :=
  if truthy web_context && bool_decide (300 ≤ length web_context) then
    Fused WEB_RAG used
      (live_banner ++ web_context ++ nl ++ nl ++ additional_banner ++ rag_context)
  else
    Fused RAG [] (knowledge_banner ++ rag_context).

(** Steps 1-3 of [_call_groq_analyze].  [rag_context] is the value of
    [semantic_retrieve(text, n_results=3)] and [metadatas] that of the
    top-1 query; both come from the vector store.  The fields
    [context_source] and [sources_used] are written unchanged into the
    result of step 4. *)
Definition _call_groq_analyze (rag_context : str)
    (metadatas : option (list (list (gmap str str))))
  : coro (raising (option str)) fused :=
  let dominant_intent := dominant_intent_of metadatas in
  coro_map (λ '(web_context, used), fuse_contexts web_context used rag_context)
    (fetch_government_context dominant_intent).

End Fetcher.

(** * Further code of [web_fetcher.py] and [main.py] *)

(** ** The paragraph filter of [_extract_text] ([web_fetcher.py], lines 125-137) *)

(** [len(t) > 40 and not t.startswith("Skip to")] *)
Definition kept (t : str) : bool :=
  bool_decide (40 < length t) && negb (bool_decide (lit "Skip to" `prefix_of` t)).

(** The loop of lines 128-135.  [tag_texts] holds, in document order, the
    [get_text] of every tag that [main.find_all] yields. *)
Fixpoint collect_texts (tag_texts : list str) (texts : list str) : list str :=
  match tag_texts with
  | [] => texts
  | t :: rest =>
      let texts := if kept t then texts ++ [t] else texts in
      if bool_decide (MAX_PARAGRAPHS ≤ length texts) then texts
      else collect_texts rest texts
  end.

(** Lines 125-137: [main_texts] is [None] when no content container is
    found, and else the texts of the tags found in it. *)
Definition extract_from (main_texts : option (list str)) : str :=
  match main_texts with
  | None => []
  | Some tag_texts => join nl (collect_texts tag_texts [])
  end.

(** [_extract_text] over a parser.  [parse] stands for BeautifulSoup: it
    strips the noise tags, picks the container and lists the tag texts,
    and may raise. *)
Definition _extract_text (parse : str → raising (option (list str))) (html : str)
  : raising str :=
  match parse html with
  | inl exc => inl exc
  | inr main_texts => inr (extract_from main_texts)
  end.

(** ** What the cache and the tasks of a run keep *)

(** A text the fetcher may store: long enough to be usable, cut to the
    character budget (lines 165 and 169). *)
Definition bounded (text : str) : Prop :=
  MIN_CONTENT_LEN ≤ length text ≤ MAX_CHARS_PER_SOURCE.

Definition cache_ok (w : world) : Prop :=
  map_Forall (λ _ entry, bounded entry.1) (_cache w).

(** The events a task can still take: two before it runs, one while its
    GET is unanswered. *)
Fixpoint pending {A} (ts : list (task A)) : nat :=
  match ts with
  | [] => 0
  | Ready _ :: ts' => 2 + pending ts'
  | Blocked _ _ :: ts' => 1 + pending ts'
  | Done _ :: ts' => pending ts'
  end.

(** The clock readings at which a run starts tasks. *)
Definition start_times (es : list event) : list Q :=
  omap (λ e, match e with Run _ now => Some now | Reply _ _ _ => None end) es.

(** Each url logged in a run was passed to [client.get] by a task that
    is no longer ready. *)
Definition sent_by (srcs : list source) (ts : list (task (raising (option str))))
    (sent : list str) : Prop :=
  ∀ u, u ∈ sent →
    ∃ j s t, srcs !! j = Some s ∧ u = url s ∧ ts !! j = Some t ∧ ∀ p, t ≠ Ready p.

(** A finished task of [source] carries no text, or the label of the
    source followed by a text within the bounds. *)
Definition bounded_result (source : source) (r : raising (option str)) : Prop :=
  r = inr None ∨ ∃ stored, r = inr (Some (tagged (label source) stored)) ∧ bounded stored.

Definition bounded_task (source : source) (t : task (raising (option str))) : Prop :=
  ∀ r, t = Done r → bounded_result source r.

(** The longest label among the first three sources of an intent. *)
Definition MAX_LABEL_LEN : nat := 78.

(** ** [semantic_retrieve] ([main.py], lines 401-417) *)

(** The exceptions of indexing a list and of subscripting a dict. *)
Inductive lookup_error : Type := IndexError | KeyError (key : str).

(** [l[0]] *)
Definition first_item {A} (l : list A) : lookup_error + A :=
  match l with
  | [] => inl IndexError
  | x :: _ => inr x
  end.

(** [meta[key]] *)
Definition subscript (meta : gmap str str) (key : str) : lookup_error + str :=
  match meta !! key with
  | Some v => inr v
  | None => inl (KeyError key)
  end.

(** The header line of a chunk: topic and section around an em dash,
    in square brackets. *)
Definition chunk_header (topic section : str) : str :=
  lit "[" ++ topic ++ lit " " ++ emdash ++ lit " " ++ section ++ lit "]".

(** Lines 414-416: the loop over [zip(docs, metas)]. *)
Fixpoint context_parts (pairs : list (str * gmap str str)) : lookup_error + list str :=
  match pairs with
  | [] => inr []
  | (doc, meta) :: rest =>
      match subscript meta (lit "topic") with
      | inl e => inl e
      | inr topic =>
          match subscript meta (lit "section") with
          | inl e => inl e
          | inr section =>
              match context_parts rest with
              | inl e => inl e
              | inr parts => inr ((chunk_header topic section ++ nl ++ doc) :: parts)
              end
          end
      end
  end.

(** [semantic_retrieve], from the [documents] and [metadatas] of the
    query result on. *)
Definition semantic_retrieve (documents : list (list str))
    (metadatas : list (list (gmap str str))) : lookup_error + str :=
  match first_item documents with
  | inl e => inl e
  | inr docs =>
      match first_item metadatas with
      | inl e => inl e
      | inr metas =>
          match context_parts (zip docs metas) with
          | inl e => inl e
          | inr parts => inr (join (nl ++ nl) parts)
          end
      end
  end.

(** ** [_call_groq_analyze] from its first statement ([main.py], lines 855-885) *)


(** ** [_get_missing] ([main.py], lines 725-790) *)

(** A value of [json.loads]. *)
#[local] Set Warnings "-register-all".
Inductive json : Type :=
| JNull
| JBool (b : bool)
| JNumber (q : Q)
| JString (s : str)
| JArray (items : list json)
| JObject (fields : list (str * json)).

Definition _RTI_QUESTIONS : list (str * str) :=
  [ (lit "name",
     lit "What is your full name?");
    (lit "address",
     lit "What is your complete postal address?");
    (lit "phone",
     lit "What is your phone number?");
    (lit "email",
     lit "What is your email address?");
    (lit "bpl_status",
     lit "Do you hold a BPL (Below Poverty Line) card? (BPL cardholders are exempt from the Rs. 10 fee)");
    (lit "department_name",
     lit "Which government department or office are you requesting information from?");
    (lit "department_address",
     lit "What is the address of that department/office?");
    (lit "pio_name",
     lit "Do you know the name of the Public Information Officer (PIO)? (Leave blank if unknown)");
    (lit "information_requested",
     lit "What specific information do you want from the government?");
    (lit "time_period",
     lit "For what time period do you want this information? (e.g., April 2023 to March 2024)");
    (lit "format_required",
     lit "In what format do you want the information? (e.g., Certified true copies, Inspection of records)");
    (lit "fee_payment_mode",
     lit "How will you pay the Rs. 10 fee? (Court fee stamp / Indian Postal Order / Demand Draft / Online at rtionline.gov.in)") ].

Definition _DV_QUESTIONS : list (str * str) :=
  [ (lit "complainant_name",
     lit "What is your full name?");
    (lit "complainant_age",
     lit "What is your age?");
    (lit "complainant_address",
     lit "What is your current address (a safe address you can receive correspondence at)?");
    (lit "complainant_phone",
     lit "What is your phone number?");
    (lit "respondent_name",
     lit "What is the full name of the person committing the violence?");
    (lit "respondent_relation",
     lit "What is their relation to you? (e.g., Husband, Father-in-law, Mother-in-law)");
    (lit "respondent_address",
     lit "What is the respondent's current address?");
    (lit "nature_of_violence",
     lit "What type of violence have you experienced? (Physical / Sexual / Verbal / Emotional / Economic / Dowry harassment)");
    (lit "incident_date",
     lit "When did the most recent incident occur? (date or approximate time)");
    (lit "incident_description",
     lit "Please describe the incident(s) in your own words.");
    (lit "witnesses",
     lit "Are there any witnesses to the violence? If yes, please provide their names and contact.");
    (lit "relief_monetary_amount",
     lit "Are you seeking monetary relief? If yes, what amount do you need for medical expenses, rent, or maintenance?") ].

Definition _DIVORCE_QUESTIONS : list (str * str) :=
  [ (lit "petitioner1_name",
     lit "What is the full name of the first petitioner (Husband)?");
    (lit "petitioner1_age",
     lit "What is the age of the first petitioner?");
    (lit "petitioner1_address",
     lit "What is the current address of the first petitioner?");
    (lit "petitioner1_occupation",
     lit "What is the occupation of the first petitioner?");
    (lit "petitioner2_name",
     lit "What is the full name of the second petitioner (Wife)?");
    (lit "petitioner2_age",
     lit "What is the age of the second petitioner?");
    (lit "petitioner2_address",
     lit "What is the current address of the second petitioner?");
    (lit "petitioner2_occupation",
     lit "What is the occupation of the second petitioner?");
    (lit "marriage_date",
     lit "When were you married? (date)");
    (lit "marriage_place",
     lit "Where were you married? (city/town)");
    (lit "marriage_registration_number",
     lit "Do you have a marriage registration number? (Leave blank if unknown)");
    (lit "separation_date",
     lit "When did you start living separately?");
    (lit "separation_address",
     lit "Where is each petitioner currently living?");
    (lit "alimony_amount",
     lit "Have you agreed on an alimony/maintenance amount? If yes, how much?");
    (lit "alimony_terms",
     lit "What are the payment terms for alimony? (e.g., Rs. 5000/month, or one-time settlement)");
    (lit "custody_arrangement",
     lit "What is the agreed child custody arrangement?");
    (lit "stridhan_settled",
     lit "Has the stridhan (jewellery, gifts) been returned/settled? (Yes/No/Not Applicable)");
    (lit "property_settled",
     lit "Has any jointly-held immovable property been divided/settled? (Yes/No/Not Applicable)") ].

(** The dict literal of lines 779-783 with its [.get(intent, {})]. *)
Definition questions_for (intent : str) : list (str * str) :=
  if bool_decide (intent = lit "RTI") then _RTI_QUESTIONS
  else if bool_decide (intent = lit "Domestic Violence") then _DV_QUESTIONS
  else if bool_decide (intent = lit "Divorce") then _DIVORCE_QUESTIONS
  else [].

(** [val is None or (isinstance(val, list) and len(val) == 0)], where
    [val = data.get(field)]. *)
Definition unanswered (val : option json) : bool :=
  match val with
  | None | Some JNull | Some (JArray []) => true
  | Some _ => false
  end.

(** The loop of lines 785-790 over [q_map.items()]. *)
Fixpoint missing_loop (items : list (str * str)) (data : gmap str json)
    (missing_fields missing_questions : list str) : list str * list str :=
  match items with
  | [] => (missing_fields, missing_questions)
  | (field, question) :: rest =>
      if unanswered (data !! field)
      then missing_loop rest data (missing_fields ++ [field])
             (missing_questions ++ [question])
      else missing_loop rest data missing_fields missing_questions
  end.

Definition _get_missing (data : gmap str json) (intent : str) : list str * list str :=
  missing_loop (questions_for intent) data [] [].

(** ** [generate_form_pdf] ([main.py], lines 1244-1274) *)

(** What a route hands to the framework: a body, or an [HTTPException]. *)
Inductive http_result (A : Type) : Type :=
| Ok (body : A)
| HTTPException (status : Z) (detail : str).
Arguments Ok {A} body.
Arguments HTTPException {A} status detail.

Record form_pdf : Type := FormPdf {
  pdf_url : str;
  pdf_filename : str;
  pdf_intent : json
}.

(** [intent == s] for a string literal [s]. *)
Definition is_string (v : json) (s : str) : bool :=
  match v with
  | JString t => bool_decide (t = s)
  | _ => false
  end.

Section Routes.

(** The builders of [form_pdf_builder.py] write a file with FPDF; each is
    taken as a parameter that yields [None], or the [str] of the
    exception it raised. *)
Variable build_rti_pdf build_dv_pdf build_divorce_pdf : json → str → option str.

(** [str(exc)] of an [HTTPException], and the f-string rendering of a
    value. *)
Variable str_of_http_exception : Z → str → str.
Variable format_value : json → str.

(** The body of the [try] block (lines 1257-1265): [None], or the [str]
    of the exception that leaves it. *)
Definition build_for (intent form_data : json) (pdf_path : str) : option str :=
  if is_string intent (lit "RTI") then build_rti_pdf form_data pdf_path
  else if is_string intent (lit "Domestic Violence") then build_dv_pdf form_data pdf_path
  else if is_string intent (lit "Divorce") then build_divorce_pdf form_data pdf_path
  else Some (str_of_http_exception 400
               (lit "Unknown intent: " ++ format_value intent)).

(** [generate_form_pdf]; [pdf_id] is the hex of the fresh uuid and
    [static_dir] the path of [STATIC_DIR] with its separator. *)
Definition generate_form_pdf (static_dir : str) (request : gmap str json) (pdf_id : str)
  : http_result form_pdf :=
  let intent := default (JString (lit "RTI")) (request !! lit "intent") in
  let form_data := default (JObject []) (request !! lit "form_data") in
  let pdf_filename := lit "nyaya_form_" ++ pdf_id ++ lit ".pdf" in
  let pdf_path := static_dir ++ pdf_filename in
  match build_for intent form_data pdf_path with
  | Some exc => HTTPException 500 (lit "PDF generation error: " ++ exc)
  | None => Ok (FormPdf (lit "/static/" ++ pdf_filename) pdf_filename intent)
  end.

End Routes.

(** ** Test doubles *)

(** An extractor that takes the body as it is. *)
Definition plain_text (html : str) : raising str := inr html.

(** A page of [n] copies of the letter A, served with status 200. *)
Definition page (n : nat) : response := Response 200 (replicate n 65%N).

Definition empty_world : world := World ∅ [].

(** The first RTI source. *)
Definition rti_online : source :=
  Source (lit "https://rtionline.gov.in/")
    (lit "RTI Online Portal " ++ emdash ++ lit " Official Portal (NIC / DoPT)").

(** A run for "RTI": the three tasks start at time 0; source 3 answers
    first with 120 characters, then source 1 with 150, and source 2 times
    out after 7 seconds. *)
Definition RTI_run : list event :=
  [ Run 0 0%Q; Run 1 0%Q; Run 2 0%Q;
    Reply 2 (inr (page 120)) 1%Q;
    Reply 0 (inr (page 150)) 2%Q;
    Reply 1 (inl TimeoutException) 7%Q ].

(** The same replies as in [RTI_run], arriving in configured order. *)
Definition RTI_run_in_order : list event :=
  [ Run 0 0%Q; Run 1 0%Q; Run 2 0%Q;
    Reply 0 (inr (page 150)) 1%Q;
    Reply 1 (inl TimeoutException) 7%Q;
    Reply 2 (inr (page 120)) 8%Q ].

(** A run for "RTI" in which sources 1 and 2 have answered with 100
    characters each and the GET to source 3 is still unanswered. *)
Definition RTI_two_answered : list event :=
  [ Run 0 0%Q; Run 1 0%Q; Run 2 0%Q;
    Reply 1 (inr (page 100)) 1%Q;
    Reply 0 (inr (page 100)) 2%Q ].



(** Four fetches of the first RTI source on one event loop.  The first two
    start at time 0, before either has an answer; their GETs are answered
    at times 1 and 2 with pages of 100 and of 120 characters.  The third
    fetch runs between the two answers and the fourth after both. *)
Definition overlapping_fetches : list event :=
  [ Run 0 0%Q; Run 1 0%Q;
    Reply 0 (inr (page 100)) 1%Q;
    Run 2 (3 # 2)%Q;
    Reply 1 (inr (page 120)) 2%Q;
    Run 3 3%Q ].

(** A world whose cache holds, since time 0, a text of 150 characters for
    each of the first three RTI sources. *)
Definition warm_world : world :=
  World (list_to_map ((λ s, (url s, (replicate 150 65%N, 0%Q))) <$> take 3 RTI_sources)) [].

(** The three RTI tasks started one minute later, and nothing else. *)
Definition RTI_starts : list event := [Run 0 60%Q; Run 1 60%Q; Run 2 60%Q].

(** The tag texts of a page: three fragments of 50 characters, one of 10
    and a skip link. *)
Definition sample_fragments : list str :=
  [ replicate 50 66%N; replicate 10 66%N; replicate 50 67%N;
    lit "Skip to main content, or to the navigation below"; replicate 50 68%N ].

Definition sample_parse (html : str) : raising (option (list str)) :=
  inr (Some sample_fragments).

(** Form data with a name, a null phone and nothing else. *)
Definition sample_form : gmap str json :=
  {[ lit "name" := JString (lit "Asha"); lit "phone" := JNull ]}.

(** * Properties *)

(** ** Float arithmetic around the time to live *)

Section Binary64Facts.

Local Open Scope Z_scope.

Lemma exponent_le n d : 0 < n → 0 < d → 0 <= exponent n d → d * 2 ^ exponent n d <= n.
Proof.
  intros Hn Hd. unfold exponent. cbv zeta.
  set (k0 := Z.log2 n - Z.log2 d).
  destruct (pow2_le k0 n d) eqn:Hp; intros Hk.
  - unfold pow2_le in Hp. destruct (0 <=? k0) eqn:H0; [|lia].
    by apply Z.leb_le in Hp.
  - destruct (Z.log2_spec n Hn) as [Hn1 _].
    destruct (Z.log2_spec d Hd) as [_ Hd2].
    pose proof (Z.log2_nonneg d) as Hld.
    assert (Hpow : 2 ^ Z.log2 n = 2 ^ (k0 - 1) * 2 ^ Z.succ (Z.log2 d)).
    { rewrite <- Z.pow_add_r by lia. f_equal. subst k0. lia. }
    assert (0 < 2 ^ (k0 - 1)) by (apply Z.pow_pos_nonneg; lia).
    nia.
Qed.

Lemma nearest_bounds num den :
  0 < den →
  num / den <= nearest num den <= num / den + 1
  ∧ (num mod den = 0 → nearest num den = num / den).
Proof.
  intros Hden. unfold nearest. cbv zeta. split.
  - destruct (2 * (num mod den) <? den), (den <? 2 * (num mod den)), (Z.even (num / den));
      lia.
  - intros ->. destruct (2 * 0 <? den) eqn:H; [done|]. lia.
Qed.

(** An exact result of at least 3600 is not rounded below 3600. *)
Lemma round64_ge_TTL (x : Q) : (CACHE_TTL <= x)%Q → (CACHE_TTL <= round64 x)%Q.
Proof.
  destruct x as [n dp]. unfold Qle, CACHE_TTL. cbn [Qnum Qden]. intros Hx.
  assert (Hn : 0 < n) by lia.
  unfold round64. cbn [Qnum Qden]. cbv zeta.
  rewrite (Z.abs_eq n), (Z.sgn_pos n) by lia.
  destruct (n =? 0) eqn:Hz; [lia|]. clear Hz.
  pose proof (exponent_le n (Zpos dp) Hn eq_refl) as Hk.
  set (d := Zpos dp) in *. assert (Hd : 0 < d) by done.
  set (k := exponent n d) in *.
  set (e := Z.max (k - 52) (-1074)).
  destruct (e <? 0) eqn:He.
  - apply Z.ltb_lt in He.
    assert (Hp : 0 < 2 ^ (- e)) by (apply Z.pow_pos_nonneg; lia).
    destruct (nearest_bounds (n * 2 ^ (- e)) d Hd) as [[Hq _] _].
    assert (Hdiv : 3600 * 2 ^ (- e) <= n * 2 ^ (- e) / d).
    { apply Z.div_le_lower_bound; [done|]. nia. }
    unfold scale2. rewrite (proj2 (Z.leb_gt 0 e)) by done.
    cbn [Qnum Qden]. rewrite Z2Pos.id by done. lia.
  - apply Z.ltb_ge in He.
    assert (Hp : 0 < 2 ^ e) by (apply Z.pow_pos_nonneg; lia).
    assert (Hden : 0 < d * 2 ^ e) by lia.
    destruct (nearest_bounds n (d * 2 ^ e) Hden) as [[Hq _] _].
    unfold scale2. rewrite (proj2 (Z.leb_le 0 e)) by done.
    unfold inject_Z. cbn [Qnum Qden].
    destruct (Z_le_gt_dec e 4) as [He4|He4].
    + assert (Heq : 3600 = 2 ^ e * (3600 / 2 ^ e)).
      { assert (e = 0 ∨ e = 1 ∨ e = 2 ∨ e = 3 ∨ e = 4)
          as [-> | [-> | [-> | [-> | ->]]]] by lia; reflexivity. }
      assert (Hdiv : 3600 / 2 ^ e <= n / (d * 2 ^ e)).
      { apply Z.div_le_lower_bound; [done|]. nia. }
      nia.
    + assert (Hke : k = e + 52) by lia.
      assert (Hkn : d * 2 ^ k <= n) by (apply Hk; lia).
      rewrite Hke, Z.pow_add_r in Hkn by lia.
      assert (Hdiv : 2 ^ 52 <= n / (d * 2 ^ e)).
      { apply Z.div_le_lower_bound; [done|]. nia. }
      assert (2 ^ 5 <= 2 ^ e) by (apply Z.pow_le_mono_r; lia).
      change (2 ^ 52) with 4503599627370496 in Hdiv.
      change (2 ^ 5) with 32 in *. nia.
Qed.

(** An exact result of at most 3600 - 2^-41, the float next below 3600,
    is rounded to a number below 3600. *)
Lemma round64_lt_TTL (x : Q) :
  (x <= CACHE_TTL - (1 # 2 ^ 41))%Q → (round64 x < CACHE_TTL)%Q.
Proof.
  destruct x as [n dp]. unfold Qle, Qlt, CACHE_TTL. cbn [Qnum Qden Qminus Qplus Qopp].
  intros Hx.
  assert (Hx' : n * 2 ^ 41 <= (3600 * 2 ^ 41 - 1) * Zpos dp) by exact Hx.
  clear Hx. set (d := Zpos dp) in *. assert (Hd : 0 < d) by done.
  unfold round64. cbn [Qnum Qden]. cbv zeta. fold d.
  destruct (Z.abs n =? 0) eqn:Hz; [done|]. apply Z.eqb_neq in Hz.
  destruct (Z_lt_le_dec n 0) as [Hneg|Hpos].
  { rewrite (Z.sgn_neg n) by done.
    set (e := Z.max (exponent (Z.abs n) d - 52) (-1074)).
    assert (Hm : 0 <= (if e <? 0 then nearest (Z.abs n * 2 ^ (- e)) d
                       else nearest (Z.abs n) (d * 2 ^ e))).
    { destruct (e <? 0) eqn:He.
      - apply Z.ltb_lt in He.
        assert (0 < 2 ^ (- e)) by (apply Z.pow_pos_nonneg; lia).
        destruct (nearest_bounds (Z.abs n * 2 ^ (- e)) d Hd) as [[Hq _] _].
        assert (0 <= Z.abs n * 2 ^ (- e) / d) by (apply Z.div_pos; nia). lia.
      - apply Z.ltb_ge in He.
        assert (0 < 2 ^ e) by (apply Z.pow_pos_nonneg; lia).
        assert (Hden : 0 < d * 2 ^ e) by lia.
        destruct (nearest_bounds (Z.abs n) (d * 2 ^ e) Hden) as [[Hq _] _].
        assert (0 <= Z.abs n / (d * 2 ^ e)) by (apply Z.div_pos; lia). lia. }
    set (m := if e <? 0 then _ else _) in *.
    unfold scale2. destruct (0 <=? e) eqn:He; cbn [Qnum Qden inject_Z].
    - apply Z.leb_le in He. assert (0 < 2 ^ e) by (apply Z.pow_pos_nonneg; lia). nia.
    - nia. }
  assert (Hn : 0 < n) by lia.
  rewrite (Z.abs_eq n) by lia. rewrite (Z.sgn_pos n) by done.
  set (k := exponent n d).
  set (e := Z.max (k - 52) (-1074)).
  assert (Hk : k <= 11).
  { destruct (Z_le_gt_dec k 11) as [|Hbig]; [done|exfalso].
    assert (Hkn : d * 2 ^ k <= n) by (apply exponent_le; lia).
    assert (2 ^ 12 <= 2 ^ k) by (apply Z.pow_le_mono_r; lia).
    change (2 ^ 12) with 4096 in *. change (2 ^ 41) with 2199023255552 in *. nia. }
  assert (He : e < 0) by lia.
  rewrite (proj2 (Z.ltb_lt e 0)) by done.
  unfold scale2. rewrite (proj2 (Z.leb_gt 0 e)) by done. cbn [Qnum Qden].
  assert (Hp : 0 < 2 ^ (- e)) by (apply Z.pow_pos_nonneg; lia).
  rewrite Z2Pos.id by done.
  set (P := 2 ^ (- e - 41)).
  assert (HP : 0 < P) by (apply Z.pow_pos_nonneg; lia).
  assert (HeP : 2 ^ (- e) = P * 2 ^ 41).
  { unfold P. rewrite <- Z.pow_add_r by lia. f_equal. lia. }
  destruct (nearest_bounds (n * 2 ^ (- e)) d Hd) as [[_ Hq] Hr].
  pose proof (Z.div_mod (n * 2 ^ (- e)) d ltac:(lia)) as Hdm.
  pose proof (Z.mod_pos_bound (n * 2 ^ (- e)) d Hd) as Hrb.
  assert (Hnum : n * 2 ^ (- e) <= (3600 * 2 ^ (- e) - P) * d).
  { rewrite HeP. change (2 ^ 41) with 2199023255552 in *. nia. }
  set (num := n * 2 ^ (- e)) in *.
  set (q := num / d) in *. set (r := num mod d) in *.
  set (m := nearest num d) in *.
  destruct (Z.eq_dec r 0) as [Hr0|Hr0].
  - rewrite (Hr Hr0). nia.
  - assert (q < 3600 * 2 ^ (- e) - P) by nia. lia.
Qed.

End Binary64Facts.

Section Properties.

Variable extract : str → raising str.

(** ** One fetch *)

Lemma fresh_lt now ts : fresh now ts = true ↔ (round64 (now - ts) < CACHE_TTL)%Q.
Proof.
  unfold fresh. rewrite negb_true_iff, <- not_true_iff_false, Qle_bool_iff.
  split; [apply Qnot_le_lt | apply Qlt_not_le].
Qed.

Lemma fresh_ge now ts : fresh now ts = false ↔ (CACHE_TTL <= round64 (now - ts))%Q.
Proof.
  unfold fresh. rewrite negb_false_iff. apply Qle_bool_iff.
Qed.

(** Up to its GET a fetch leaves the cache as it is. *)
Lemma advance_fetch_cache s now w t w' :
  advance (_fetch_one extract s) now w = (t, w') → _cache w' = _cache w.
Proof.
  unfold _fetch_one. cbn.
  destruct (_cache w !! url s) as [[stored ts]|]; cbn.
  - destruct (fresh now ts); cbn; by intros [= <- <-].
  - by intros [= <- <-].
Qed.

Lemma advance_try_except u l now w :
  advance (try_except extract u l) now w
  = (Blocked u (resume extract u l), World (_cache w) (requests w ++ [u])).
Proof. reflexivity. Qed.

Lemma advance_fetch_hit s text ts now w :
  _cache w !! url s = Some (text, ts) → fresh now ts = true →
  advance (_fetch_one extract s) now w = (Done (inr (Some (tagged (label s) text))), w).
Proof.
  intros Hc Hf. unfold _fetch_one. cbn. rewrite Hc. cbn. by rewrite Hf.
Qed.

Lemma advance_fetch_miss s now w :
  serves w (url s) now = false →
  advance (_fetch_one extract s) now w
  = (Blocked (url s) (resume extract (url s) (label s)),
     World (_cache w) (requests w ++ [url s])).
Proof.
  unfold serves, _fetch_one. cbn.
  destruct (_cache w !! url s) as [[text ts]|]; cbn; [|done].
  by intros ->.
Qed.

Lemma advance_resume u l r now w :
  advance (resume extract u l r) now w
  = match usable extract r with
    | Some text =>
        (Done (inr (Some (tagged l text))),
         World (<[u := (text, now)]> (_cache w)) (requests w))
    | None => (Done (inr None), w)
    end.
Proof.
  unfold resume, after_get, usable.
  destruct r as [[]|resp]; try done.
  case_bool_decide; [done|].
  destruct (extract (text resp)) as [[]|body]; try done.
  by case_bool_decide.
Qed.

Lemma advance_resume_done u l r now w :
  ∃ v w', advance (resume extract u l r) now w = (Done (inr v), w')
          ∧ requests w' = requests w.
Proof.
  rewrite advance_resume. destruct (usable extract r); eauto.
Qed.

(** After its GET a fetch of [u] leaves the entries of other urls as
    they are, and its own entry too when the reply gives no usable text. *)
Lemma advance_resume_other u l r now w t w' u' :
  u ≠ u' ∨ usable extract r = None →
  advance (resume extract u l r) now w = (t, w') →
  _cache w' !! u' = _cache w !! u'.
Proof.
  intros Hkeep. rewrite advance_resume.
  destruct (usable extract r); intros [= <- <-]; [|done].
  destruct Hkeep as [Hne|?]; [|done]. cbn. by apply lookup_insert_ne.
Qed.

(** ** The scheduler *)

Lemma gathered_Some {A} (ts : list (task A)) rs :
  gathered ts = Some rs ↔ ts = Done <$> rs.
Proof.
  revert rs. induction ts as [|t ts IH]; intros rs; cbn.
  - split; [intros [= <-]; done|]. by destruct rs.
  - destruct t as [p|u k|r]; try (split; [done|by destruct rs]).
    destruct (gathered ts) as [rs'|] eqn:Hg.
    + split.
      * intros [= <-]. cbn. f_equal. by apply IH.
      * destruct rs as [|r0 rs0]; [done|]. intros [= -> Hts].
        apply IH in Hts. congruence.
    + split; [done|]. destruct rs as [|r0 rs0]; [done|]. intros [= -> Hts].
      apply IH in Hts. congruence.
Qed.

Lemma step_tasks_length {A} e w (ts : list (task A)) w' ts' :
  step_tasks e w ts = Some (w', ts') → length ts' = length ts.
Proof.
  destruct e as [i now|i r now]; cbn.
  - destruct (ts !! i) as [[p|u k|r]|]; try done.
    destruct (advance p now w). intros [= _ <-]. apply length_insert.
  - destruct (ts !! i) as [[p|u k|r0]|]; try done.
    destruct (advance (k r) now w). intros [= _ <-]. apply length_insert.
Qed.

(** A run never changes the continuation of the gather, nor the number
    of its tasks. *)
Lemma exec_gathering {R A} es w (ts : list (task R)) (k : list R → A) w' cs' :
  exec es (w, Gathering ts k) = Some (w', cs') →
  ∃ ts', cs' = Gathering ts' k ∧ length ts' = length ts.
Proof.
  revert w ts. induction es as [|e es IH]; intros w ts; cbn.
  - intros [= <- <-]. eauto.
  - destruct (step_tasks e w ts) as [[w1 ts1]|] eqn:Hs; [|done].
    intros (ts' & -> & Hlen)%IH. apply step_tasks_length in Hs.
    exists ts'. split; [done|congruence].
Qed.

Lemma exec_Gathering {R A} es w (ts : list (task R)) (k : list R → A) :
  exec es (w, Gathering ts k)
  = (λ st, (st.1, Gathering st.2 k)) <$> exec_tasks es w ts.
Proof.
  revert w ts. induction es as [|e es IH]; intros w ts; [done|]. cbn.
  destruct (step_tasks e w ts) as [[w1 ts1]|]; [apply IH|done].
Qed.

Lemma exec_finished {R A} es w (a : A) (st : world * cstate R A) :
  exec es (w, Finished a) = Some st → es = [] ∧ st = (w, Finished a).
Proof. destruct es; cbn; [by intros [= <-]|done]. Qed.

Lemma exec_cstate_map {R A B} (f : A → B) es w (cs : cstate R A) :
  exec es (w, cstate_map f cs)
  = (λ st, (st.1, cstate_map f st.2)) <$> exec es (w, cs).
Proof.
  revert w cs. induction es as [|e es IH]; intros w cs; [done|].
  destruct cs as [a|ts k]; cbn; [done|].
  destruct (step_tasks e w ts) as [[w1 ts1]|]; [|done].
  apply (IH w1 (Gathering ts1 k)).
Qed.

Lemma result_of_cstate_map {R A B} (f : A → B) (cs : cstate R A) :
  result_of (cstate_map f cs) = f <$> result_of cs.
Proof. destruct cs as [a|ts k]; cbn; [done|]. by destruct (gathered ts). Qed.

Lemma start_coro_map {R A B} (f : A → B) (c : coro R A) :
  start (coro_map f c) = cstate_map f (start c).
Proof. by destruct c. Qed.

Lemma unstarted_insert_ready {A} (ts : list (task A)) i p t :
  ts !! i = Some (Ready p) → (∀ q, t ≠ Ready q) →
  S (unstarted (<[i := t]> ts)) = unstarted ts.
Proof.
  revert i. induction ts as [|t0 ts IH]; intros [|i] Hl Ht; try done.
  - cbn in Hl. injection Hl as ->. destruct t; [by destruct (Ht p0)|done..].
  - cbn in Hl. cbn. destruct t0; cbn; rewrite <- (IH i Hl Ht); done.
Qed.

Lemma unstarted_insert_blocked {A} (ts : list (task A)) i u k t :
  ts !! i = Some (Blocked u k) → (∀ q, t ≠ Ready q) →
  unstarted (<[i := t]> ts) = unstarted ts.
Proof.
  revert i. induction ts as [|t0 ts IH]; intros [|i] Hl Ht; try done.
  - cbn in Hl. injection Hl as ->. destruct t; [by destruct (Ht p)|done..].
  - cbn in Hl. specialize (IH i Hl Ht). destruct t0; cbn; [f_equal|..]; exact IH.
Qed.

Local Ltac count_unstarted Hi :=
  match goal with
  | |- context [unstarted (<[?i := ?t]> ?ts)] =>
      first
        [ pose proof (unstarted_insert_ready ts i _ t Hi ltac:(done))
        | pose proof (unstarted_insert_blocked ts i _ _ t Hi ltac:(done)) ]
  end; cbn [length]; lia.

Lemma fetch_task_start srcs :
  Forall2 (fetch_task extract) srcs (Ready <$> (_fetch_one extract <$> srcs))
  ∧ unstarted (Ready <$> (_fetch_one extract <$> srcs)) = length srcs.
Proof.
  induction srcs as [|s srcs [IH1 IH2]]; cbn; [by split|].
  split; [constructor; [by left|done]|by rewrite IH2].
Qed.

(** One step of the loop keeps every task a fetch of the source at its
    position, and sends at most one GET, to the url of one of the sources,
    and only when it runs a task for the first time. *)
Lemma step_tasks_fetch srcs ts e w w' ts' :
  Forall2 (fetch_task extract) srcs ts →
  step_tasks e w ts = Some (w', ts') →
  Forall2 (fetch_task extract) srcs ts'
  ∧ ∃ sent, requests w' = requests w ++ sent
            ∧ sent ⊆ url <$> srcs
            ∧ length sent + unstarted ts' ≤ unstarted ts.
Proof.
  intros Hinv. destruct e as [i now|i r now]; cbn.
  - destruct (ts !! i) as [[p|u k|r]|] eqn:Hi; try done.
    destruct (Forall2_lookup_r _ _ _ _ _ Hinv Hi) as (s & Hs & Hp).
    destruct Hp as [[= ->]|[?|[?|[? ?]]]]; try done.
    destruct (serves w (url s) now) eqn:Hserve.
    + unfold serves in Hserve.
      destruct (_cache w !! url s) as [[text ts0]|] eqn:Hc; [|done].
      rewrite (advance_fetch_hit _ _ _ _ _ Hc Hserve). intros [= <- <-].
      split.
      * rewrite <- (list_insert_id _ _ _ Hs). apply Forall2_insert; [done|].
        right; right; right. by eexists.
      * exists []. rewrite app_nil_r. split; [done|]. split; [apply list_subseteq_nil|].
        count_unstarted Hi.
    + rewrite (advance_fetch_miss _ _ _ Hserve). intros [= <- <-].
      split.
      * rewrite <- (list_insert_id _ _ _ Hs). apply Forall2_insert; [done|].
        right; by left.
      * exists [url s]. split; [done|]. split.
        -- intros x ->%list_elem_of_singleton.
           apply list_elem_of_fmap_2. by eapply list_elem_of_lookup_2.
        -- count_unstarted Hi.
  - destruct (ts !! i) as [[p|u k|r0]|] eqn:Hi; try done.
    destruct (Forall2_lookup_r _ _ _ _ _ Hinv Hi) as (s & Hs & Hp).
    destruct Hp as [?|[[= -> ->]|[?|[? ?]]]]; try done.
    rewrite advance_resume.
    destruct (usable extract r) as [text|]; intros [= <- <-].
    + split.
      * rewrite <- (list_insert_id _ _ _ Hs). apply Forall2_insert; [done|].
        right; right; right. by eexists.
      * exists []. rewrite app_nil_r. split; [done|]. split; [apply list_subseteq_nil|].
        count_unstarted Hi.
    + split.
      * rewrite <- (list_insert_id _ _ _ Hs). apply Forall2_insert; [done|].
        right; right; by left.
      * exists []. rewrite app_nil_r. split; [done|]. split; [apply list_subseteq_nil|].
        count_unstarted Hi.
Qed.

Lemma exec_fetch {A} srcs ts (k : list (raising (option str)) → A) es w w' cs' :
  Forall2 (fetch_task extract) srcs ts →
  exec es (w, Gathering ts k) = Some (w', cs') →
  ∃ ts' sent,
    cs' = Gathering ts' k
    ∧ Forall2 (fetch_task extract) srcs ts'
    ∧ requests w' = requests w ++ sent
    ∧ sent ⊆ url <$> srcs
    ∧ length sent + unstarted ts' ≤ unstarted ts.
Proof.
  revert w ts. induction es as [|e es IH]; intros w ts Hinv; cbn.
  - intros [= <- <-]. exists ts, []. rewrite app_nil_r.
    repeat split; [done|apply list_subseteq_nil|done].
  - destruct (step_tasks e w ts) as [[w1 ts1]|] eqn:Hs; [|done].
    destruct (step_tasks_fetch _ _ _ _ _ _ Hinv Hs)
      as (Hinv1 & sent1 & Hreq1 & Hsub1 & Hcnt1).
    intros (ts' & sent & -> & Hinv' & Hreq & Hsub & Hcnt)%(IH _ _ Hinv1).
    exists ts', (sent1 ++ sent). split; [done|]. split; [done|].
    split; [by rewrite Hreq, Hreq1, app_assoc|].
    split; [by apply list_subseteq_app_iff_l|].
    rewrite length_app. lia.
Qed.

(** ** The registry *)

Lemma configured intent l :
  GOVERNMENT_SOURCES !! intent = Some l →
  l = RTI_sources ∨ l = DV_sources ∨ l = Divorce_sources.
Proof.
  unfold GOVERNMENT_SOURCES.
  intros [[_ <-]|[_ H]]%lookup_insert_Some; [by left|].
  apply lookup_insert_Some in H as [[_ <-]|[_ H]]; [by right; left|].
  apply lookup_insert_Some in H as [[_ <-]|[_ H]]; [by right; right|].
  by rewrite lookup_empty in H.
Qed.

Lemma configured_labels_NoDup intent :
  NoDup (label <$> take 3 (default [] (GOVERNMENT_SOURCES !! intent))).
Proof.
  destruct (GOVERNMENT_SOURCES !! intent) as [l|] eqn:Hl; [|constructor].
  apply configured in Hl as [-> | [-> | ->]]; cbn [default]; compute_done.
Qed.

(** ** Runs of the fusion engine *)

Lemma engine_cases intent :
  let sources := default [] (GOVERNMENT_SOURCES !! intent) in
  (sources = [] ∧ fetch_government_context extract intent = CRet ([], []))
  ∨ (sources ≠ []
     ∧ fetch_government_context extract intent
       = CGather (_fetch_one extract <$> take 3 sources) (assemble (take 3 sources))).
Proof.
  unfold fetch_government_context. cbn zeta.
  case_bool_decide; [left|right]; done.
Qed.

Lemma engine_run intent es w w' cs' :
  exec es (w, start (fetch_government_context extract intent)) = Some (w', cs') →
  let sources := default [] (GOVERNMENT_SOURCES !! intent) in
  (sources = [] ∧ es = [] ∧ w' = w ∧ cs' = Finished ([], []))
  ∨ (sources ≠ []
     ∧ ∃ ts' sent,
         cs' = Gathering ts' (assemble (take 3 sources))
         ∧ Forall2 (fetch_task extract) (take 3 sources) ts'
         ∧ requests w' = requests w ++ sent
         ∧ sent ⊆ url <$> take 3 sources
         ∧ length sent ≤ 3).
Proof.
  intros Hrun sources.
  destruct (engine_cases intent) as [[H0 Heq]|[H0 Heq]]; rewrite Heq in Hrun.
  - left. apply exec_finished in Hrun as [-> [= -> ->]]. done.
  - right. split; [done|]. cbn [start] in Hrun.
    destruct (fetch_task_start (take 3 sources)) as [Hinv Hn].
    destruct (exec_fetch _ _ _ _ _ _ _ Hinv Hrun)
      as (ts' & sent & -> & Hinv' & Hreq & Hsub & Hcnt).
    exists ts', sent. repeat split; try done.
    rewrite Hn, length_take in Hcnt. lia.
Qed.

(** ** The fusion loop *)

Lemma accept_spec pairs combined used :
  length combined < 2 →
  accept pairs combined used
  = (combined ++ (take (2 - length combined) (hits pairs)).*1,
     used ++ (take (2 - length combined) (hits pairs)).*2).
Proof.
  revert combined used.
  induction pairs as [|[src r] rest IH]; intros c u Hc.
  - cbn. by rewrite take_nil, !app_nil_r.
  - cbn [accept hits omap list_omap]. fold (hits rest).
    destruct (accepted r) as [t|]; cbn [fmap option_fmap option_map].
    + case_bool_decide as Hlen; rewrite length_app in Hlen; cbn in Hlen.
      * replace (2 - length c) with 1 by lia. reflexivity.
      * rewrite IH by (rewrite length_app; cbn; lia).
        rewrite length_app. cbn [length].
        replace (2 - length c) with 2 by lia.
        replace (2 - (length c + 1)) with 1 by lia.
        cbn. by rewrite <- !app_assoc.
    + rewrite bool_decide_eq_false_2 by lia. by apply IH.
Qed.

Lemma assemble_spec srcs rs :
  assemble srcs rs
  = (join separator (take 2 (hits (zip srcs rs))).*1,
     (take 2 (hits (zip srcs rs))).*2).
Proof.
  unfold assemble. rewrite accept_spec by (cbn; lia). reflexivity.
Qed.

Lemma hits_truthy pairs : Forall (λ h, h.1 ≠ []) (hits pairs).
Proof.
  induction pairs as [|[src r] rest IH]; [constructor|].
  cbn [hits omap list_omap]. fold (hits rest).
  destruct r as [e|[t|]]; cbn; try done.
  destruct t; cbn; [done|]. by constructor.
Qed.

Lemma hits_labels pairs : (hits pairs).*2 `sublist_of` (label <$> pairs.*1).
Proof.
  induction pairs as [|[src r] rest IH]; [constructor|].
  cbn [hits omap list_omap]. fold (hits rest).
  destruct (accepted r); cbn; by constructor.
Qed.

Lemma zip_fst_sublist {A B} (l : list A) (k : list B) : (zip l k).*1 `sublist_of` l.
Proof.
  revert k. induction l as [|x l IH]; intros [|y k]; cbn;
    try apply sublist_nil_l. by constructor.
Qed.

Lemma join_nil sep (parts : list str) :
  Forall (λ s, s ≠ []) parts → join sep parts = [] ↔ parts = [].
Proof.
  intros Hne. split; [|by intros ->].
  destruct parts as [|x [|y rest]]; [done| |]; inversion_clear Hne; cbn.
  - done.
  - by destruct x.
Qed.

(** The pair the loop builds: at most two labels, taken in order from the
    labels of [srcs], and an empty text exactly for an empty label list. *)
Lemma assemble_shape srcs rs combined used :
  assemble srcs rs = (combined, used) →
  length used ≤ 2
  ∧ used `sublist_of` (label <$> srcs)
  ∧ (combined = [] ↔ used = []).
Proof.
  rewrite assemble_spec. intros [= <- <-].
  set (hs := hits (zip srcs rs)).
  split; [|split].
  - rewrite length_fmap, length_take. lia.
  - trans (hs.*2); [apply fmap_sublist, sublist_take|].
    trans (label <$> (zip srcs rs).*1); [apply hits_labels|].
    apply fmap_sublist, zip_fst_sublist.
  - rewrite join_nil.
    + split; intros H%fmap_nil_inv; by rewrite H.
    + apply Forall_fmap, Forall_take. apply hits_truthy.
Qed.

(** A run of the engine for a configured intent is the run of its tasks. *)
Lemma engine_exec intent srcs es w w' ts' :
  GOVERNMENT_SOURCES !! intent = Some srcs →
  srcs ≠ [] →
  exec_tasks es w (Ready <$> (_fetch_one extract <$> take 3 srcs)) = Some (w', ts') →
  exec es (w, start (fetch_government_context extract intent))
  = Some (w', Gathering ts' (assemble (take 3 srcs))).
Proof.
  intros Hsrc Hne Hrun.
  destruct (engine_cases intent) as [[H0 _]|[_ ->]]; rewrite Hsrc in *; [done|].
  cbn [start default from_option id]. by rewrite exec_Gathering, Hrun.
Qed.

(** A run of the context steps is a run of the engine, fused at the end. *)
Lemma analyze_exec rag_context metadatas es w w' cs0 :
  exec es (w, start (fetch_government_context extract (dominant_intent_of metadatas)))
    = Some (w', cs0) →
  exec es (w, start (_call_groq_analyze extract rag_context metadatas))
  = Some (w', cstate_map (λ '(web_context, used),
                            fuse_contexts web_context used rag_context) cs0).
Proof.
  intros Hrun. unfold _call_groq_analyze. cbv zeta.
  by rewrite start_coro_map, exec_cstate_map, Hrun.
Qed.

Lemma assemble_first_two a b c s1 s2 r3 :
  s1 ≠ [] → s2 ≠ [] →
  assemble [a; b; c] [inr (Some s1); inr (Some s2); r3]
  = (s1 ++ separator ++ s2, [label a; label b]).
Proof. destruct s1, s2; done. Qed.

Lemma assemble_first_third a b c s1 r2 s3 :
  s1 ≠ [] → accepted r2 = None → s3 ≠ [] →
  assemble [a; b; c] [inr (Some s1); r2; inr (Some s3)]
  = (s1 ++ separator ++ s3, [label a; label c]).
Proof.
  intros H1 H2 H3. unfold assemble. cbn [zip zip_with accept].
  rewrite H2. destruct s1, s3; done.
Qed.

(** What a finished run of the engine has returned: the loop applied to
    the results of the tasks, each task standing at the position of its
    source. *)
Lemma engine_result intent es w w' cs' out :
  exec es (w, start (fetch_government_context extract intent)) = Some (w', cs') →
  result_of cs' = Some out →
  let srcs := take 3 (default [] (GOVERNMENT_SOURCES !! intent)) in
  ∃ rs,
    (cs' = Finished ([], []) ∧ rs = []
     ∨ cs' = Gathering (Done <$> rs) (assemble srcs))
    ∧ Forall2 (λ s r, r = inr None ∨ ∃ text, r = inr (Some (tagged (label s) text)))
        srcs rs
    ∧ out = assemble srcs rs.
Proof.
  intros Hrun Hres srcs.
  destruct (engine_run _ _ _ _ _ Hrun)
    as [(H0 & _ & _ & ->)|(_ & ts' & sent & -> & Hinv & _)].
  - exists []. subst srcs. rewrite H0. cbn in Hres. injection Hres as <-.
    split; [by left|]. split; [constructor|done].
  - cbn in Hres. fold srcs in Hinv, Hres.
    destruct (gathered ts') as [rs|] eqn:Hg; [|done]. injection Hres as <-.
    apply gathered_Some in Hg as ->. exists rs.
    split; [by right|]. split; [|done].
    rewrite Forall2_fmap_r in Hinv. eapply Forall2_impl; [exact Hinv|]. cbn.
    intros s r [?|[?|[[= ->]|[text [= ->]]]]]; try done; [by left|right; eauto].
Qed.

(** ** The claims *)

(** C1. Whatever run of [_call_groq_analyze] has produced a result, the
    fusion engine has returned some pair (web_context, sources_used) in
    that run, and: if web_context has at least 300 characters, the fused
    context is web_context followed by the RAG context (each under its
    banner), the tag is the web-and-semantic value "WEB+RAG" and
    sources_used is the list the engine returned; if web_context has at
    most 299 characters, the fused context holds the RAG context alone,
    the tag is the semantic-only value "RAG" and sources_used is empty. *)
Theorem fusion_threshold
    (rag_context : str) (metadatas : option (list (list (gmap str str))))
    (es : list event) (w w' : world)
    (cs' : cstate (raising (option str)) fused) (out : fused) :
  exec es (w, start (_call_groq_analyze extract rag_context metadatas)) = Some (w', cs') →
  result_of cs' = Some out →
  ∃ web_context used cs0,
    exec es (w, start (fetch_government_context extract (dominant_intent_of metadatas)))
      = Some (w', cs0)
    ∧ result_of cs0 = Some (web_context, used)
    ∧ (300 ≤ length web_context →
       out = Fused WEB_RAG used
               (live_banner ++ web_context ++ nl ++ nl
                  ++ additional_banner ++ rag_context))
    ∧ (length web_context ≤ 299 →
       out = Fused RAG [] (knowledge_banner ++ rag_context)).
Proof.
  unfold _call_groq_analyze. cbv zeta. rewrite start_coro_map, exec_cstate_map.
  destruct (exec es _) as [[w0 cs0]|]; [|done]. cbn. intros [= <- <-].
  rewrite result_of_cstate_map.
  destruct (result_of cs0) as [[web used]|] eqn:Hres; [|done]. cbn. intros [= <-].
  exists web, used, cs0. split; [done|]. split; [done|].
  unfold fuse_contexts. split; intros Hlen.
  - rewrite bool_decide_eq_true_2 by done.
    destruct web; [cbn in Hlen; lia|done].
  - rewrite bool_decide_eq_false_2 by lia. by rewrite andb_false_r.
Qed.

(** C2, as the code has it.  With three sources configured, the engine has
    returned exactly when all three tasks of its gather are done, and its
    value is the loop applied to the three results; when the first two
    results are non-empty texts, that value is the first text, the
    separator and the second text with the two labels, whatever the third
    fetch resolved to. *)
Theorem engine_returns_when_all_fetches_resolved
    (intent : str) (a b c : source) (es : list event) (w w' : world)
    (cs' : cstate (raising (option str)) (str * list str)) :
  take 3 (default [] (GOVERNMENT_SOURCES !! intent)) = [a; b; c] →
  exec es (w, start (fetch_government_context extract intent)) = Some (w', cs') →
  ∃ t1 t2 t3,
    cs' = Gathering [t1; t2; t3] (assemble [a; b; c])
    ∧ (∀ out, result_of cs' = Some out ↔
         ∃ r1 r2 r3, t1 = Done r1 ∧ t2 = Done r2 ∧ t3 = Done r3
                     ∧ out = assemble [a; b; c] [r1; r2; r3])
    ∧ (∀ s1 s2 r3, s1 ≠ [] → s2 ≠ [] →
         assemble [a; b; c] [inr (Some s1); inr (Some s2); r3]
         = (s1 ++ separator ++ s2, [label a; label b])).
Proof.
  intros H3 Hrun.
  destruct (engine_run _ _ _ _ _ Hrun)
    as [(H0 & _)|(_ & ts' & sent & -> & Hinv & _)].
  { by rewrite H0 in H3. }
  rewrite H3 in Hinv |- *.
  apply Forall2_length in Hinv.
  destruct ts' as [|t1 [|t2 [|t3 [|]]]]; try done.
  exists t1, t2, t3. split; [done|]. split.
  - intros out. cbn. split.
    + destruct t1 as [| |r1]; try done. destruct t2 as [| |r2]; try done.
      destruct t3 as [| |r3]; try done. intros [= <-]. by exists r1, r2, r3.
    + by intros (r1 & r2 & r3 & -> & -> & -> & ->).
  - intros. by apply assemble_first_two.
Qed.

(** C3. The pair a run of the engine returns is built from the results
    of the tasks by position: task i is the fetch of the i-th of the
    first three configured sources, its text carries the label of that
    source, and the texts and labels returned are those of the first two
    accepted results in that order.  The order in which the events of the
    run happened plays no part.  With three sources, when the first and
    the third succeed and the second fails, the result is the first text,
    the separator and the third text, with the first and third labels. *)
Theorem results_in_configured_order
    (intent : str) (es : list event) (w w' : world)
    (cs' : cstate (raising (option str)) (str * list str))
    (combined : str) (used : list str) :
  exec es (w, start (fetch_government_context extract intent)) = Some (w', cs') →
  result_of cs' = Some (combined, used) →
  let srcs := take 3 (default [] (GOVERNMENT_SOURCES !! intent)) in
  ∃ rs,
    (cs' = Finished ([], []) ∧ rs = []
     ∨ cs' = Gathering (Done <$> rs) (assemble srcs))
    ∧ Forall2 (λ s r, r = inr None ∨ ∃ text, r = inr (Some (tagged (label s) text)))
        srcs rs
    ∧ combined = join separator (take 2 (hits (zip srcs rs))).*1
    ∧ used = (take 2 (hits (zip srcs rs))).*2
    ∧ (∀ a b c s1 r2 s3,
         srcs = [a; b; c] → rs = [inr (Some s1); r2; inr (Some s3)] →
         s1 ≠ [] → accepted r2 = None → s3 ≠ [] →
         combined = s1 ++ separator ++ s3 ∧ used = [label a; label c]).
Proof.
  intros Hrun Hres srcs.
  destruct (engine_result _ _ _ _ _ _ Hrun Hres) as (rs & Hcs & Htag & Hout).
  fold srcs in Hcs, Htag, Hout.
  exists rs. split; [done|]. split; [done|].
  pose proof Hout as Hspec. rewrite assemble_spec in Hspec.
  injection Hspec as Hc Hu. split; [done|]. split; [done|].
  intros a b c s1 r2 s3 Hs -> H1 H2 H3.
  rewrite Hs, (assemble_first_third _ _ _ _ _ _ H1 H2 H3) in Hout.
  by injection Hout.
Qed.

(** C7. For an intent with no entry in [GOVERNMENT_SOURCES], the engine is
    a coroutine that returns the pair of the empty string and the empty
    list at once: it creates no task, no event of the loop applies to it,
    and a run of it leaves the world, hence the request log, unchanged. *)
Theorem unconfigured_intent_returns_empty (intent : str) (w : world) :
  GOVERNMENT_SOURCES !! intent = None →
  fetch_government_context extract intent = CRet ([], [])
  ∧ result_of (start (fetch_government_context extract intent)) = Some ([], [])
  ∧ (∀ e, step e (w, start (fetch_government_context extract intent)) = None)
  ∧ (∀ es w' cs',
       exec es (w, start (fetch_government_context extract intent)) = Some (w', cs') →
       w' = w ∧ cs' = Finished ([], [])).
Proof.
  intros Hnone.
  assert (Heq : fetch_government_context extract intent = CRet ([], [])).
  { unfold fetch_government_context. by rewrite Hnone. }
  rewrite Heq. split; [done|]. split; [done|]. split; [done|].
  intros es w' cs' Hrun. cbn in Hrun.
  by apply exec_finished in Hrun as [_ [= -> ->]].
Qed.

(** C8. In a run of the engine the GET requests sent are at most three
    and each goes to the url of one of the first three sources configured
    for the intent; no request goes to the url of a source at position
    four or later, such as the fourth RTI source. *)
Theorem only_first_three_sources_fetched
    (intent : str) (es : list event) (w w' : world)
    (cs' : cstate (raising (option str)) (str * list str)) :
  exec es (w, start (fetch_government_context extract intent)) = Some (w', cs') →
  let sources := default [] (GOVERNMENT_SOURCES !! intent) in
  ∃ sent,
    requests w' = requests w ++ sent
    ∧ length sent ≤ 3
    ∧ sent ⊆ url <$> take 3 sources
    ∧ (∀ i s, 3 ≤ i → sources !! i = Some s → url s ∉ sent).
Proof.
  intros Hrun sources.
  assert (Hlate : ∀ i s, 3 ≤ i → sources !! i = Some s →
                         url s ∉ url <$> take 3 sources).
  { subst sources. intros i s Hi Hs.
    destruct (GOVERNMENT_SOURCES !! intent) as [l|] eqn:Hl; [|done].
    apply configured in Hl as [-> | [-> | ->]]; cbn [default] in *;
      do 3 (destruct i as [|i]; [lia|]);
      (destruct i as [|i]; [|done]); try done.
    injection Hs as <-. compute_done. }
  destruct (engine_run _ _ _ _ _ Hrun)
    as [(H0 & -> & -> & _)|(_ & ts' & sent & _ & _ & Hreq & Hsub & Hlen)].
  - exists []. rewrite app_nil_r. split; [done|]. split; [cbn; lia|].
    split; [apply list_subseteq_nil|]. intros i s _ _. apply not_elem_of_nil.
  - exists sent. split; [done|]. split; [done|]. split; [done|].
    intros i s Hi Hs Hin. by apply (Hlate i s Hi Hs), Hsub.
Qed.


(** C10. The pair a run of the engine returns holds at most two labels;
    the labels are a subsequence of the labels of the first three sources
    configured for the intent, so each is one of them, they come in
    configured order, and none comes twice; and the combined text is
    empty exactly when the list of labels is empty. *)
Theorem engine_result_invariant
    (intent : str) (es : list event) (w w' : world)
    (cs' : cstate (raising (option str)) (str * list str))
    (combined : str) (used : list str) :
  exec es (w, start (fetch_government_context extract intent)) = Some (w', cs') →
  result_of cs' = Some (combined, used) →
  let configured_labels :=
    label <$> take 3 (default [] (GOVERNMENT_SOURCES !! intent)) in
  length used ≤ 2
  ∧ used `sublist_of` configured_labels
  ∧ (∀ l, l ∈ used → l ∈ configured_labels)
  ∧ NoDup used
  ∧ (combined = [] ↔ used = []).
Proof.
  intros Hrun Hres labels.
  destruct (engine_result _ _ _ _ _ _ Hrun Hres) as (rs & _ & _ & Hout).
  symmetry in Hout. apply assemble_shape in Hout as (Hlen & Hsub & Hnil).
  split; [done|]. split; [done|]. split; [|split; [|done]].
  - intros l. by apply sublist_subseteq.
  - eapply sublist_NoDup; [apply configured_labels_NoDup|done].
Qed.

(** C4, as the code has it.  A successful fetch at time [t0] stores
    the text it returns under the url with timestamp [t0].  That entry
    stays the url's entry until a fetch of the same url stores its own:
    a fetch up to its GET, the rest of a fetch of another url, and the
    rest of a fetch whose reply gives no usable text leave it alone.
    While it is the url's entry, a fetch of the url at a time [t1] whose
    age as the code computes it, the float [t1 - t0], is below 3600
    returns the same text (under the label of the asking source) and
    leaves the world, hence the log of [client.get] calls, as it is;
    this is so whenever [t1 - t0] is at most 3600 - 2^-41.  An entry
    whose computed age is 3600 or more is not served, and this is so
    whenever [t1 - t0] is 3600 or more: the fetch calls [client.get], and
    when that call succeeds at [t2] the entry is overwritten with the new
    text and [t2]. *)
Theorem cached_entry_served_until_ttl_then_refetched
    (s : source) (w : world) (resp : response) (body : str) (t0 : Q) :
  status_code resp = 200%Z →
  extract (text resp) = inr body →
  MIN_CONTENT_LEN ≤ length body →
  let stored := take MAX_CHARS_PER_SOURCE body in
  ∃ w1,
    advance (resume extract (url s) (label s) (inr resp)) t0 w
      = (Done (inr (Some (tagged (label s) stored))), w1)
    ∧ _cache w1 !! url s = Some (stored, t0)
    ∧ (∀ (s' : source) (w' : world) (now : Q)
         (t : task (raising (option str))) (w'' : world),
         advance (_fetch_one extract s') now w' = (t, w'') →
         _cache w'' !! url s = _cache w' !! url s)
    ∧ (∀ (s' : source) (r : raising response) (w' : world) (now : Q)
         (t : task (raising (option str))) (w'' : world),
         url s' ≠ url s ∨ usable extract r = None →
         advance (resume extract (url s') (label s') r) now w' = (t, w'') →
         _cache w'' !! url s = _cache w' !! url s)
    ∧ (∀ (s' : source) (w' : world) (t1 : Q),
         url s' = url s →
         _cache w' !! url s = Some (stored, t0) →
         (round64 (t1 - t0) < CACHE_TTL)%Q
         ∨ (t1 - t0 <= CACHE_TTL - (1 # 2 ^ 41))%Q →
         advance (_fetch_one extract s') t1 w'
           = (Done (inr (Some (tagged (label s') stored))), w'))
    ∧ (∀ (w' : world) (t1 : Q),
         _cache w' !! url s = Some (stored, t0) →
         (CACHE_TTL <= round64 (t1 - t0))%Q ∨ (CACHE_TTL <= t1 - t0)%Q →
         ∃ k w2,
           advance (_fetch_one extract s) t1 w' = (Blocked (url s) k, w2)
           ∧ requests w2 = requests w' ++ [url s]
           ∧ ∀ (resp' : response) (body' : str) (t2 : Q),
               status_code resp' = 200%Z →
               extract (text resp') = inr body' →
               MIN_CONTENT_LEN ≤ length body' →
               ∃ w3,
                 advance (k (inr resp')) t2 w2
                   = (Done (inr (Some (tagged (label s)
                                         (take MAX_CHARS_PER_SOURCE body')))), w3)
                 ∧ _cache w3 !! url s
                   = Some (take MAX_CHARS_PER_SOURCE body', t2)).
Proof.
  intros Hst Hex Hlen stored.
  assert (Hok : ∀ resp' body', status_code resp' = 200%Z →
            extract (text resp') = inr body' → MIN_CONTENT_LEN ≤ length body' →
            usable extract (inr resp') = Some (take MAX_CHARS_PER_SOURCE body')).
  { intros resp' body' H1 H2 H3. unfold usable. rewrite H2.
    rewrite bool_decide_eq_false_2 by (intros ?; congruence).
    rewrite bool_decide_eq_false_2 by lia. done. }
  eexists. split; [|split; [|split; [|split; [|split]]]].
  - rewrite advance_resume, (Hok _ _ Hst Hex Hlen). reflexivity.
  - cbn. apply lookup_insert_eq.
  - intros s' w' now t w'' Hadv. by rewrite (advance_fetch_cache _ _ _ _ _ Hadv).
  - intros s' r w' now t w'' Hne Hadv. by eapply advance_resume_other.
  - intros s' w' t1 Hu Hc Hage.
    apply advance_fetch_hit with (ts := t0); [by rewrite Hu|].
    apply fresh_lt. destruct Hage as [Hage|Hage]; [done|by apply round64_lt_TTL].
  - intros w' t1 Hc Hage.
    eexists _, _. split; [|split].
    + apply advance_fetch_miss. unfold serves. rewrite Hc.
      apply fresh_ge. destruct Hage as [Hage|Hage]; [done|by apply round64_ge_TTL].
    + reflexivity.
    + intros resp' body' t2 H1 H2 H3. eexists. split.
      * rewrite advance_resume, (Hok _ _ H1 H2 H3). reflexivity.
      * cbn. apply lookup_insert_eq.
Qed.


(** C6. When the cache does not answer and the GET brings a 200 response
    whose extracted text is shorter than [MIN_CONTENT_LEN] = 100
    characters, the fetch returns [None] and the cache is the one the
    fetch started with: nothing is stored. *)
Theorem short_page_is_absent_and_not_cached
    (s : source) (w : world) (t0 t1 : Q) (resp : response) (body : str) :
  serves w (url s) t0 = false →
  status_code resp = 200%Z →
  extract (text resp) = inr body →
  length body < MIN_CONTENT_LEN →
  MIN_CONTENT_LEN = 100
  ∧ ∃ k w1,
      advance (_fetch_one extract s) t0 w = (Blocked (url s) k, w1)
      ∧ advance (k (inr resp)) t1 w1 = (Done (inr None), w1)
      ∧ _cache w1 = _cache w.
Proof.
  intros Hmiss Hst Hex Hlen. split; [done|].
  eexists _, _. split; [by apply advance_fetch_miss|].
  split; [|reflexivity].
  rewrite advance_resume. unfold usable. rewrite Hex.
  rewrite bool_decide_eq_false_2 by (intros ?; congruence).
  by rewrite bool_decide_eq_true_2.
Qed.

End Properties.

(** * The claims at concrete inputs *)

(** Solves [lhs = rhs] where [lhs] is closed and [rhs] may hold unknowns:
    [lhs] is evaluated and [rhs] is filled in from its value. *)
Local Ltac evaluate :=
  match goal with
  | |- ?lhs = ?rhs =>
      let v := eval vm_compute in lhs in
      unify rhs v; vm_cast_no_check (@eq_refl _ v)
  end.

Example fuse_299 (used : list str) (rag : str) :
  fuse_contexts (replicate 299 65%N) used rag = Fused RAG [] (knowledge_banner ++ rag).
Proof. reflexivity. Qed.

Example fuse_300 (used : list str) (rag : str) :
  fuse_contexts (replicate 300 65%N) used rag
  = Fused WEB_RAG used
      (live_banner ++ replicate 300 65%N ++ nl ++ nl ++ additional_banner ++ rag).
Proof. reflexivity. Qed.

Local Ltac run_engine :=
  eapply engine_exec; [vm_compute; reflexivity | done | evaluate].

Lemma premises1 (A C : Prop) : A → (A → C) → A ∧ C.
Proof. tauto. Qed.

Lemma premises2 (A B C : Prop) : A → B → (A → B → C) → A ∧ B ∧ C.
Proof. tauto. Qed.

Lemma premises3 (A B C D : Prop) : A → B → C → (A → B → C → D) → A ∧ B ∧ C ∧ D.
Proof. tauto. Qed.

Lemma premises4 (A B C D E : Prop) :
  A → B → C → D → (A → B → C → D → E) → A ∧ B ∧ C ∧ D ∧ E.
Proof. tauto. Qed.

(** The run [RTI_run] returns the text of source 1, the separator and the
    text of source 3, with the labels of sources 1 and 3, although source
    3 answered first. *)
Example RTI_run_result :
  ∃ w' cs',
    exec RTI_run (empty_world, start (fetch_government_context plain_text (lit "RTI")))
      = Some (w', cs')
    ∧ result_of cs'
      = Some (tagged (label rti_online) (replicate 150 65%N)
                ++ separator
                ++ tagged (lit "Department of Justice " ++ emdash
                             ++ lit " Right to Information") (replicate 120 65%N),
              [label rti_online;
               lit "Department of Justice " ++ emdash ++ lit " Right to Information"]).
Proof.
  eexists _, _. split; [run_engine|]. vm_compute. reflexivity.
Qed.

(** The replies of [RTI_run] arriving in another order give the same pair. *)
Example completion_order_is_irrelevant :
  ∃ w1 cs1 w2 cs2,
    exec RTI_run (empty_world, start (fetch_government_context plain_text (lit "RTI")))
      = Some (w1, cs1)
    ∧ exec RTI_run_in_order
        (empty_world, start (fetch_government_context plain_text (lit "RTI")))
      = Some (w2, cs2)
    ∧ is_Some (result_of cs1)
    ∧ result_of cs1 = result_of cs2.
Proof.
  eexists _, _, _, _. split; [run_engine|]. split; [run_engine|].
  split; [by eexists|]. vm_compute. reflexivity.
Qed.

Lemma fusion_threshold_witness :
  ∃ w' cs' out,
    exec RTI_run (empty_world, start (_call_groq_analyze plain_text (lit "rag") None))
      = Some (w', cs')
    ∧ result_of cs' = Some out
    ∧ ∃ web_context used cs0,
        exec RTI_run
          (empty_world,
           start (fetch_government_context plain_text (dominant_intent_of None)))
          = Some (w', cs0)
        ∧ result_of cs0 = Some (web_context, used)
        ∧ (300 ≤ length web_context →
           out = Fused WEB_RAG used
                   (live_banner ++ web_context ++ nl ++ nl
                      ++ additional_banner ++ lit "rag"))
        ∧ (length web_context ≤ 299 →
           out = Fused RAG [] (knowledge_banner ++ lit "rag")).
Proof.
  eexists _, _, _. apply premises2.
  - apply analyze_exec; run_engine.
  - evaluate.
  - apply (fusion_threshold plain_text (lit "rag") None RTI_run empty_world).
Defined.

(** C2 fails on the code: after sources 1 and 2 of "RTI" have both
    succeeded, with the GET to source 3 unanswered, the engine has not
    returned. *)
Lemma engine_waits_for_pending_third_fetch :
  ∃ w' s1 s2 u k3 k,
    exec RTI_two_answered
      (empty_world, start (fetch_government_context plain_text (lit "RTI")))
      = Some (w', Gathering [Done (inr (Some s1)); Done (inr (Some s2)); Blocked u k3] k)
    ∧ s1 ≠ [] ∧ s2 ≠ []
    ∧ result_of (Gathering [Done (inr (Some s1)); Done (inr (Some s2)); Blocked u k3] k)
      = None.
Proof.
  eexists _, _, _, _, _, _. split; [run_engine|]. by repeat split.
Qed.

Lemma engine_returns_when_all_fetches_resolved_witness :
  ∃ a b c w' cs',
    take 3 (default [] (GOVERNMENT_SOURCES !! lit "RTI")) = [a; b; c]
    ∧ exec RTI_two_answered
        (empty_world, start (fetch_government_context plain_text (lit "RTI")))
      = Some (w', cs')
    ∧ ∃ t1 t2 t3,
        cs' = Gathering [t1; t2; t3] (assemble [a; b; c])
        ∧ (∀ out, result_of cs' = Some out ↔
             ∃ r1 r2 r3, t1 = Done r1 ∧ t2 = Done r2 ∧ t3 = Done r3
                         ∧ out = assemble [a; b; c] [r1; r2; r3])
        ∧ (∀ s1 s2 r3, s1 ≠ [] → s2 ≠ [] →
             assemble [a; b; c] [inr (Some s1); inr (Some s2); r3]
             = (s1 ++ separator ++ s2, [label a; label b])).
Proof.
  eexists _, _, _, _, _. apply premises2.
  - evaluate.
  - run_engine.
  - apply (engine_returns_when_all_fetches_resolved plain_text (lit "RTI")).
Defined.

Lemma results_in_configured_order_witness :
  ∃ w' cs' combined used,
    exec RTI_run (empty_world, start (fetch_government_context plain_text (lit "RTI")))
      = Some (w', cs')
    ∧ result_of cs' = Some (combined, used)
    ∧ let srcs := take 3 (default [] (GOVERNMENT_SOURCES !! lit "RTI")) in
      ∃ rs,
        (cs' = Finished ([], []) ∧ rs = []
         ∨ cs' = Gathering (Done <$> rs) (assemble srcs))
        ∧ Forall2 (λ s r, r = inr None
                          ∨ ∃ text, r = inr (Some (tagged (label s) text)))
            srcs rs
        ∧ combined = join separator (take 2 (hits (zip srcs rs))).*1
        ∧ used = (take 2 (hits (zip srcs rs))).*2
        ∧ (∀ a b c s1 r2 s3,
             srcs = [a; b; c] → rs = [inr (Some s1); r2; inr (Some s3)] →
             s1 ≠ [] → accepted r2 = None → s3 ≠ [] →
             combined = s1 ++ separator ++ s3 ∧ used = [label a; label c]).
Proof.
  eexists _, _, _, _. apply premises2.
  - run_engine.
  - evaluate.
  - apply (results_in_configured_order plain_text (lit "RTI") RTI_run empty_world).
Defined.

(** The rounding of [round64] at inputs whose floats are known: a tenth,
    the ties just above [2^53], and the two halves of the smallest
    spacing. *)
Example round64_tenth :
  Qred (round64 (1 # 10)) = (3602879701896397 # 36028797018963968)%Q.
Proof. vm_compute. reflexivity. Qed.

Example round64_ties_to_even :
  Qred (round64 (inject_Z (2 ^ 53 + 1))) = inject_Z (2 ^ 53)
  ∧ Qred (round64 (inject_Z (2 ^ 53 + 3))) = inject_Z (2 ^ 53 + 4)
  ∧ Qred (round64 (1 # 2 ^ 1075)) = 0%Q
  ∧ Qred (round64 (3 # 2 ^ 1075)) = Qred (1 # 2 ^ 1073).
Proof. vm_compute. done. Qed.

(** The age is the float, not the exact difference: an entry stored at
    [2^-70] is less than 3600 seconds old at time 3600, and is not
    served. *)
Example age_is_rounded :
  (3600 - (1 # 2 ^ 70) < CACHE_TTL)%Q
  ∧ Qred (round64 (3600 - (1 # 2 ^ 70))) = 3600%Q
  ∧ fresh 3600 (1 # 2 ^ 70) = false.
Proof. vm_compute. done. Qed.

(** C4 fails on the code: in [overlapping_fetches] the first fetch
    succeeds at time 1, the third and the fourth fetch of the same url
    run within 3600 seconds of it and are both served from the cache
    ([client.get] is called twice in all, by the first two fetches), and
    yet they return different texts: the second fetch, which had missed
    the cache before the first one stored its text, has overwritten the
    entry in between. *)
Lemma overlapping_fetches_return_different_texts :
  ∃ w' text1 text2,
    exec_tasks overlapping_fetches empty_world
      (Ready <$> replicate 4 (_fetch_one plain_text rti_online))
    = Some (w', [ Done (inr (Some text1)); Done (inr (Some text2));
                  Done (inr (Some text1)); Done (inr (Some text2)) ])
    ∧ text1 ≠ text2
    ∧ requests w' = [url rti_online; url rti_online].
Proof.
  eexists _, _, _. split; [evaluate|]. split.
  - intros H. apply (f_equal length) in H. vm_compute in H. discriminate.
  - vm_compute. reflexivity.
Qed.

Lemma cached_entry_served_until_ttl_then_refetched_witness :
  status_code (page 100) = 200%Z
  ∧ plain_text (text (page 100)) = inr (replicate 100 65%N)
  ∧ MIN_CONTENT_LEN ≤ length (replicate 100 65%N)
  ∧ ∃ w1,
      advance (resume plain_text (url rti_online) (label rti_online) (inr (page 100)))
        0%Q empty_world
      = (Done (inr (Some (tagged (label rti_online) (replicate 100 65%N)))), w1)
      ∧ advance (_fetch_one plain_text rti_online) 3599%Q w1
        = (Done (inr (Some (tagged (label rti_online) (replicate 100 65%N)))), w1)
      ∧ ∃ k w2,
          advance (_fetch_one plain_text rti_online) 3600%Q w1
          = (Blocked (url rti_online) k, w2)
          ∧ requests w2 = requests w1 ++ [url rti_online].
Proof.
  apply premises3; [reflexivity | reflexivity | vm_compute; lia |].
  intros H1 H2 H3.
  destruct (cached_entry_served_until_ttl_then_refetched plain_text rti_online
              empty_world (page 100) (replicate 100 65%N) 0%Q H1 H2 H3)
    as (w1 & Hfetch & Hentry & _ & _ & Hhit & Hmiss).
  exists w1. split; [exact Hfetch|]. split.
  - apply Hhit; [reflexivity | exact Hentry | right; discriminate].
  - destruct (Hmiss w1 3600%Q Hentry) as (k & w2 & Hblocked & Hreq & _).
    + right. discriminate.
    + by exists k, w2.
Defined.


Lemma short_page_is_absent_and_not_cached_witness :
  serves empty_world (url rti_online) 0%Q = false
  ∧ status_code (page 80) = 200%Z
  ∧ plain_text (text (page 80)) = inr (replicate 80 65%N)
  ∧ length (replicate 80 65%N) < MIN_CONTENT_LEN
  ∧ MIN_CONTENT_LEN = 100
  ∧ ∃ k w1,
      advance (_fetch_one plain_text rti_online) 0%Q empty_world
      = (Blocked (url rti_online) k, w1)
      ∧ advance (k (inr (page 80))) 1%Q w1 = (Done (inr None), w1)
      ∧ _cache w1 = _cache empty_world.
Proof.
  apply premises4;
    [vm_compute; reflexivity | reflexivity | reflexivity | vm_compute; lia |].
  apply (short_page_is_absent_and_not_cached plain_text rti_online empty_world
           0%Q 1%Q (page 80) (replicate 80 65%N)).
Defined.

Lemma unconfigured_intent_returns_empty_witness :
  GOVERNMENT_SOURCES !! lit "NoSuchTopic" = None
  ∧ fetch_government_context plain_text (lit "NoSuchTopic") = CRet ([], [])
  ∧ result_of (start (fetch_government_context plain_text (lit "NoSuchTopic")))
    = Some ([], [])
  ∧ (∀ e, step e (empty_world,
                  start (fetch_government_context plain_text (lit "NoSuchTopic")))
          = None)
  ∧ (∀ es w' cs',
       exec es (empty_world,
                start (fetch_government_context plain_text (lit "NoSuchTopic")))
       = Some (w', cs') →
       w' = empty_world ∧ cs' = Finished ([], [])).
Proof.
  apply premises1; [vm_compute; reflexivity|].
  apply (unconfigured_intent_returns_empty plain_text (lit "NoSuchTopic") empty_world).
Defined.

Lemma only_first_three_sources_fetched_witness :
  ∃ w' cs',
    exec RTI_run (empty_world, start (fetch_government_context plain_text (lit "RTI")))
      = Some (w', cs')
    ∧ let sources := default [] (GOVERNMENT_SOURCES !! lit "RTI") in
      ∃ sent,
        requests w' = requests empty_world ++ sent
        ∧ length sent ≤ 3
        ∧ sent ⊆ url <$> take 3 sources
        ∧ (∀ i s, 3 ≤ i → sources !! i = Some s → url s ∉ sent).
Proof.
  eexists _, _. apply premises1.
  - run_engine.
  - apply (only_first_three_sources_fetched plain_text (lit "RTI") RTI_run empty_world).
Defined.



Lemma engine_result_invariant_witness :
  ∃ w' cs' combined used,
    exec RTI_run (empty_world, start (fetch_government_context plain_text (lit "RTI")))
      = Some (w', cs')
    ∧ result_of cs' = Some (combined, used)
    ∧ let configured_labels :=
        label <$> take 3 (default [] (GOVERNMENT_SOURCES !! lit "RTI")) in
      length used ≤ 2
      ∧ used `sublist_of` configured_labels
      ∧ (∀ l, l ∈ used → l ∈ configured_labels)
      ∧ NoDup used
      ∧ (combined = [] ↔ used = []).
Proof.
  eexists _, _, _, _. apply premises2.
  - run_engine.
  - evaluate.
  - apply (engine_result_invariant plain_text (lit "RTI") RTI_run empty_world).
Defined.

(** * Properties of the further code *)

(** ** The paragraph filter *)

Lemma collect_texts_spec tag_texts texts :
  length texts < MAX_PARAGRAPHS →
  collect_texts tag_texts texts
  = texts ++ take (MAX_PARAGRAPHS - length texts) (filter (λ t, kept t) tag_texts).
Proof.
  revert texts. induction tag_texts as [|t rest IH]; intros texts Hlen.
  - cbn. by rewrite take_nil, app_nil_r.
  - cbn [collect_texts]. rewrite filter_cons.
    destruct (kept t) eqn:Hk.
    + rewrite decide_True by done.
      case_bool_decide as Hfull; rewrite length_app in Hfull; cbn in Hfull.
      * replace (MAX_PARAGRAPHS - length texts) with 1 by lia. reflexivity.
      * rewrite IH by (rewrite length_app; cbn; lia).
        rewrite length_app. cbn [length].
        replace (MAX_PARAGRAPHS - length texts)
          with (S (MAX_PARAGRAPHS - (length texts + 1))) by lia.
        cbn. by rewrite <- app_assoc.
    + rewrite decide_False by (cbn; tauto).
      rewrite bool_decide_eq_false_2 by lia. by apply IH.
Qed.

Lemma extract_from_spec main_texts :
  extract_from main_texts
  = join nl (take MAX_PARAGRAPHS (filter (λ t, kept t) (default [] main_texts))).
Proof.
  destruct main_texts as [tag_texts|]; [|done]. unfold extract_from.
  rewrite collect_texts_spec by (cbn; unfold MAX_PARAGRAPHS; lia).
  cbn [app length default from_option id]. by rewrite Nat.sub_0_r.
Qed.

Lemma kept_spec t : kept t ↔ 40 < length t ∧ ¬ lit "Skip to" `prefix_of` t.
Proof.
  unfold kept. rewrite andb_True, negb_True, !bool_decide_spec. done.
Qed.

Lemma filter_kept_nil (l : list str) :
  filter (λ t, kept t) l = []
  ↔ Forall (λ t, ¬ (40 < length t ∧ ¬ lit "Skip to" `prefix_of` t)) l.
Proof.
  induction l as [|t l IH]; [by rewrite filter_nil|].
  rewrite filter_cons, Forall_cons, <- IH, <- kept_spec.
  destruct (decide (kept t)); intuition congruence.
Qed.

(** X1. The text extracted from a content container is made of the
    first [MAX_PARAGRAPHS] = 50 fragments, in document order, that are
    longer than 40 characters and do not start with "Skip to", one per
    line; without a container it is empty. *)
Theorem extract_keeps_first_qualifying_fragments (tag_texts : list str) :
  extract_from (Some tag_texts)
  = join nl (take MAX_PARAGRAPHS (filter (λ t, kept t) tag_texts))
  ∧ extract_from None = [].
Proof.
  split; [|done]. apply (extract_from_spec (Some tag_texts)).
Qed.

Lemma length_join_lines (ps : list str) :
  Forall (λ t, 40 < length t) ps → 42 * length ps ≤ length (join nl ps) + 1.
Proof.
  induction 1 as [|p ps Hp _ IH]; [cbn; lia|].
  destruct ps as [|q ps]; [cbn; lia|].
  change (join nl (p :: q :: ps)) with (p ++ nl ++ join nl (q :: ps)).
  rewrite !length_app. change (length nl) with 1. cbn [length] in *. lia.
Qed.

(** X2. The lines of the extracted text are the first 50 qualifying
    fragments of the container, a fragment qualifying when it is longer
    than 40 characters and does not start with "Skip to": their number is
    the smaller of 50 and the number of qualifying fragments, they keep
    the document order, n of them give at least 42 n - 1 characters, and
    the text is empty exactly when no fragment of the container
    qualifies. *)
Theorem extracted_text_shape (main_texts : option (list str)) :
  let fragments := default [] main_texts in
  let paragraphs := take MAX_PARAGRAPHS (filter (λ t, kept t) fragments) in
  extract_from main_texts = join nl paragraphs
  ∧ length paragraphs = MAX_PARAGRAPHS `min` length (filter (λ t, kept t) fragments)
  ∧ paragraphs `sublist_of` fragments
  ∧ Forall (λ t, 40 < length t ∧ ¬ lit "Skip to" `prefix_of` t) paragraphs
  ∧ 42 * length paragraphs ≤ length (extract_from main_texts) + 1
  ∧ (extract_from main_texts = []
     ↔ Forall (λ t, ¬ (40 < length t ∧ ¬ lit "Skip to" `prefix_of` t)) fragments).
Proof.
  intros fragments ps. rewrite extract_from_spec. fold fragments ps.
  assert (Hq : Forall (λ t, 40 < length t ∧ ¬ lit "Skip to" `prefix_of` t) ps).
  { apply Forall_take, Forall_forall. intros t [Hk _]%list_elem_of_filter.
    by apply kept_spec. }
  split; [done|]. split; [apply length_take|].
  split; [etrans; [apply sublist_take|apply sublist_filter]|].
  split; [done|]. split.
  - apply length_join_lines. eapply Forall_impl; [exact Hq|]. by intros t [? _].
  - rewrite <- filter_kept_nil. etrans.
    { apply join_nil. eapply Forall_impl; [exact Hq|].
      intros t [Ht _] ->. cbn in Ht. lia. }
    subst ps. split; [|by intros ->].
    intros [H|H]%take_nil_inv; [done|exact H].
Qed.

(** ** The cache across a run *)

Section CacheRuns.

Variable extract : str → raising str.

Lemma usable_bounded r stored : usable extract r = Some stored → bounded stored.
Proof.
  unfold usable, bounded. destruct r as [e|resp]; [done|].
  case_bool_decide; [done|]. destruct (extract (text resp)) as [e|body]; [done|].
  case_bool_decide as Hlen; [done|]. intros [= <-]. rewrite length_take.
  unfold MIN_CONTENT_LEN, MAX_CHARS_PER_SOURCE in *. lia.
Qed.

(** What one step of the loop does to the cache: nothing, or one store of
    a usable text under the url of the task's source, stamped with the
    time of the reply. *)
Lemma step_tasks_cache srcs ts e w w' ts' :
  Forall2 (fetch_task extract) srcs ts →
  step_tasks e w ts = Some (w', ts') →
  _cache w' = _cache w
  ∨ ∃ i s r now text,
      e = Reply i r now ∧ srcs !! i = Some s ∧ usable extract r = Some text
      ∧ _cache w' = <[url s := (text, now)]> (_cache w).
Proof.
  intros Hinv. destruct e as [i now|i r now]; cbn.
  - destruct (ts !! i) as [[p|u k|r]|] eqn:Hi; try done.
    destruct (Forall2_lookup_r _ _ _ _ _ Hinv Hi) as (s & Hs & Hp).
    destruct Hp as [[= ->]|[?|[?|[? ?]]]]; try done.
    destruct (serves w (url s) now) eqn:Hserve.
    + unfold serves in Hserve.
      destruct (_cache w !! url s) as [[text ts0]|] eqn:Hc; [|done].
      rewrite (advance_fetch_hit _ _ _ _ _ _ Hc Hserve). intros [= <- <-]. by left.
    + rewrite (advance_fetch_miss _ _ _ _ Hserve). intros [= <- <-]. by left.
  - destruct (ts !! i) as [[p|u k|r0]|] eqn:Hi; try done.
    destruct (Forall2_lookup_r _ _ _ _ _ Hinv Hi) as (s & Hs & Hp).
    destruct Hp as [?|[[= -> ->]|[?|[? ?]]]]; try done.
    rewrite advance_resume.
    destruct (usable extract r) as [text|] eqn:Hu; intros [= <- <-]; [|by left].
    right. by exists i, s, r, now, text.
Qed.

(** Any property of the cache that survives the store of a bounded text
    under the url of one of the sources survives a run of their tasks. *)
Lemma exec_tasks_cache (P : gmap str (str * Q) → Prop) srcs :
  (∀ c s text now, P c → s ∈ srcs → bounded text → P (<[url s := (text, now)]> c)) →
  ∀ es ts w w' ts',
    Forall2 (fetch_task extract) srcs ts →
    exec_tasks es w ts = Some (w', ts') →
    P (_cache w) → P (_cache w').
Proof.
  intros HP es. induction es as [|e es IH]; intros ts w w' ts' Hinv; cbn.
  - by intros [= <- <-].
  - destruct (step_tasks e w ts) as [[w1 ts1]|] eqn:Hs; [|done].
    intros Hrun Hw. eapply (IH ts1 w1); [|done|].
    + by destruct (step_tasks_fetch _ _ _ _ _ _ _ Hinv Hs).
    + destruct (step_tasks_cache _ _ _ _ _ _ Hinv Hs)
        as [-> |(i & s & r & now & text & _ & Hsrc & Hu & ->)]; [done|].
      apply HP; [done| |by eapply usable_bounded].
      by eapply list_elem_of_lookup_2.
Qed.

(** A run of the engine is immediate, or is the run of its tasks. *)
Lemma engine_run_tasks intent es w w' cs' :
  exec es (w, start (fetch_government_context extract intent)) = Some (w', cs') →
  let srcs := take 3 (default [] (GOVERNMENT_SOURCES !! intent)) in
  (es = [] ∧ w' = w ∧ cs' = Finished ([], []))
  ∨ ∃ ts',
      exec_tasks es w (Ready <$> (_fetch_one extract <$> srcs)) = Some (w', ts')
      ∧ cs' = Gathering ts' (assemble srcs).
Proof.
  intros Hrun srcs.
  destruct (engine_cases extract intent) as [[_ Heq]|[_ Heq]]; rewrite Heq in Hrun.
  - left. by apply exec_finished in Hrun as [-> [= -> ->]].
  - right. cbn [start] in Hrun. rewrite exec_Gathering in Hrun.
    destruct (exec_tasks es w _) as [[w1 ts1]|] eqn:Ht; [|done].
    cbn in Hrun. injection Hrun as <- <-. by exists ts1.
Qed.

(** X4. A run of the engine keeps the cache within bounds: if every
    cached text has between [MIN_CONTENT_LEN] and [MAX_CHARS_PER_SOURCE]
    characters before the run, so it is after; and every entry that the
    run wrote or replaced holds such a text. *)
Theorem run_keeps_cache_bounded
    (intent : str) (es : list event) (w w' : world)
    (cs' : cstate (raising (option str)) (str * list str)) :
  exec es (w, start (fetch_government_context extract intent)) = Some (w', cs') →
  (cache_ok w → cache_ok w')
  ∧ (∀ u stored ts, _cache w' !! u = Some (stored, ts) →
          _cache w !! u = Some (stored, ts) ∨ bounded stored).
Proof.
  intros Hrun.
  destruct (engine_run_tasks _ _ _ _ _ Hrun) as [(_ & -> & _)|(ts' & Ht & _)].
  { split; [done|]. intros; by left. }
  destruct (fetch_task_start extract
              (take 3 (default [] (GOVERNMENT_SOURCES !! intent)))) as [Hinv _].
  pose proof (λ P HP, exec_tasks_cache P _ HP _ _ _ _ _ Hinv Ht) as Hind.
  split.
  - apply Hind. intros c s stored now Hc _ Hb. by apply map_Forall_insert_2.
  - intros u.
    apply (Hind (λ c, ∀ stored ts, c !! u = Some (stored, ts) →
                        _cache w !! u = Some (stored, ts) ∨ bounded stored)).
    + intros c s stored now Hc _ Hb stored' stamp. rewrite lookup_insert.
      case_decide; [intros [= <- <-]; by right|apply Hc].
    + intros; by left.
Qed.

(** X5. A run of the engine for an intent removes no cache entry, and
    leaves every entry alone whose url is not that of one of the first
    three sources of the intent. *)
Theorem run_touches_only_its_urls
    (intent : str) (es : list event) (w w' : world)
    (cs' : cstate (raising (option str)) (str * list str)) :
  exec es (w, start (fetch_government_context extract intent)) = Some (w', cs') →
  (∀ u, is_Some (_cache w !! u) → is_Some (_cache w' !! u))
  ∧ (∀ u, u ∉ url <$> take 3 (default [] (GOVERNMENT_SOURCES !! intent)) →
          _cache w' !! u = _cache w !! u).
Proof.
  intros Hrun.
  destruct (engine_run_tasks _ _ _ _ _ Hrun) as [(_ & -> & _)|(ts' & Ht & _)].
  { by split. }
  destruct (fetch_task_start extract
              (take 3 (default [] (GOVERNMENT_SOURCES !! intent)))) as [Hinv _].
  pose proof (λ P HP, exec_tasks_cache P _ HP _ _ _ _ _ Hinv Ht) as Hind.
  split.
  - intros u. apply (Hind (λ c, is_Some (_cache w !! u) → is_Some (c !! u))); [|done].
    intros c s stored now Hc _ _ Hu. rewrite lookup_insert.
    case_decide; [by eexists|by apply Hc].
  - intros u Hu. apply (Hind (λ c, c !! u = _cache w !! u)); [|done].
    intros c s stored now Hc Hs _. rewrite lookup_insert_ne; [done|].
    intros <-. apply Hu. by apply list_elem_of_fmap_2.
Qed.

End CacheRuns.

(** ** The length of a run *)

Section RunLength.

Variable extract : str → raising str.

Lemma pending_insert {A} (ts : list (task A)) i t0 t :
  ts !! i = Some t0 →
  pending (<[i := t]> ts) + pending [t0] = pending ts + pending [t].
Proof.
  revert i. induction ts as [|t1 ts IH]; intros [|i] Hi; try done.
  - cbn in Hi. injection Hi as ->. destruct t0, t; cbn; lia.
  - cbn in Hi. specialize (IH i Hi).
    change (<[S i := t]> (t1 :: ts)) with (t1 :: <[i := t]> ts).
    remember (pending [t0]) as a. remember (pending [t]) as b.
    destruct t1; cbn [pending]; lia.
Qed.

Lemma pending_ready {A} (ps : list (prog A)) : pending (Ready <$> ps) = 2 * length ps.
Proof. induction ps; cbn in *; lia. Qed.

Lemma pending_gathered {A} (ts : list (task A)) :
  gathered ts = None →
  ∃ i, (∃ p, ts !! i = Some (Ready p)) ∨ (∃ u k, ts !! i = Some (Blocked u k)).
Proof.
  induction ts as [|t ts IH]; [done|]. destruct t as [p|u k|r].
  - exists 0. left. by exists p.
  - exists 0. right. by exists u, k.
  - cbn. destruct (gathered ts); [done|]. intros _.
    destruct IH as [i Hi]; [done|]. by exists (S i).
Qed.

(** Every step of the loop uses up one of the events its tasks have left. *)
Lemma step_tasks_pending srcs ts e w w' ts' :
  Forall2 (fetch_task extract) srcs ts →
  step_tasks e w ts = Some (w', ts') →
  pending ts' < pending ts.
Proof.
  intros Hinv Hs.
  destruct (step_tasks_fetch _ _ _ _ _ _ _ Hinv Hs) as [Hinv' _].
  destruct e as [i now|i r now]; cbn in Hs.
  - destruct (ts !! i) as [[p|u k|r]|] eqn:Hi; try done.
    destruct (advance p now w) as [t w1] eqn:Ha. injection Hs as <- <-.
    pose proof (pending_insert ts i _ t Hi) as Hp.
    destruct (Forall2_lookup_r _ _ _ _ _ Hinv Hi) as (s & Hsrc & _).
    destruct (Forall2_lookup_l _ _ _ _ _ Hinv' Hsrc) as (t' & Ht' & Hok).
    rewrite list_lookup_insert_eq in Ht' by (by eapply lookup_lt_Some).
    injection Ht' as <-.
    destruct Hok as [-> |[-> |[-> |[? ->]]]]; cbn in Hp; try lia.
    exfalso. revert Ha. destruct (serves w (url s) now) eqn:Hserve.
    + unfold serves in Hserve.
      destruct (_cache w !! url s) as [[c ts0]|] eqn:Hc; [|done].
      destruct (Forall2_lookup_r _ _ _ _ _ Hinv Hi) as (s' & Hsrc' & Hp').
      assert (s' = s) as -> by congruence.
      destruct Hp' as [[= ->]|[?|[?|[? ?]]]]; try done.
      by rewrite (advance_fetch_hit _ _ _ _ _ _ Hc Hserve).
    + destruct (Forall2_lookup_r _ _ _ _ _ Hinv Hi) as (s' & Hsrc' & Hp').
      assert (s' = s) as -> by congruence.
      destruct Hp' as [[= ->]|[?|[?|[? ?]]]]; try done.
      by rewrite (advance_fetch_miss _ _ _ _ Hserve).
  - destruct (ts !! i) as [[p|u k|r0]|] eqn:Hi; try done.
    destruct (Forall2_lookup_r _ _ _ _ _ Hinv Hi) as (s & Hsrc & Hp').
    destruct Hp' as [?|[[= -> ->]|[?|[? ?]]]]; try done.
    destruct (advance_resume_done extract (url s) (label s) r now w)
      as (v & w1 & Ha & _).
    rewrite Ha in Hs. injection Hs as <- <-.
    pose proof (pending_insert ts i _ (Done (inr v)) Hi) as Hp. cbn in Hp. lia.
Qed.

Lemma exec_tasks_pending srcs es ts w w' ts' :
  Forall2 (fetch_task extract) srcs ts →
  exec_tasks es w ts = Some (w', ts') →
  Forall2 (fetch_task extract) srcs ts' ∧ length es + pending ts' ≤ pending ts.
Proof.
  revert ts w. induction es as [|e es IH]; intros ts w Hinv; cbn.
  - intros [= <- <-]. split; [done|lia].
  - destruct (step_tasks e w ts) as [[w1 ts1]|] eqn:Hs; [|done]. intros Hrun.
    pose proof (step_tasks_pending _ _ _ _ _ _ Hinv Hs) as Hlt.
    destruct (step_tasks_fetch _ _ _ _ _ _ _ Hinv Hs) as [Hinv1 _].
    destruct (IH _ _ Hinv1 Hrun) as [Hinv' Hle]. split; [done|lia].
Qed.

(** From any state of the tasks there is a way to the end of the gather. *)
Lemma tasks_completable srcs n ts w :
  pending ts ≤ n →
  Forall2 (fetch_task extract) srcs ts →
  ∃ es w' ts', exec_tasks es w ts = Some (w', ts') ∧ is_Some (gathered ts').
Proof.
  revert ts w. induction n as [|n IH]; intros ts w Hn Hinv;
    (destruct (gathered ts) as [rs|] eqn:Hg;
     [exists [], w, ts; split; [done|by rewrite Hg]|]);
    destruct (pending_gathered ts Hg) as [i [[p Hi]|[u [k Hi]]]].
  all: try (
    (assert (∃ st, step_tasks (Run i 0%Q) w ts = Some st) as [[w1 ts1] Hs]
       by (cbn; rewrite Hi; destruct (advance p 0%Q w); by eexists))
    || (assert (∃ st, step_tasks (Reply i (inl TimeoutException) 0%Q) w ts = Some st)
          as [[w1 ts1] Hs]
          by (cbn; rewrite Hi;
              destruct (advance (k (inl TimeoutException)) 0%Q w); by eexists))).
  all: pose proof (step_tasks_pending _ _ _ _ _ _ Hinv Hs) as Hlt; try lia.
  all: destruct (step_tasks_fetch _ _ _ _ _ _ _ Hinv Hs) as [Hinv1 _].
  all: destruct (IH ts1 w1 ltac:(lia) Hinv1) as (es & w' & ts' & Hrun & Hdone).
  - exists (Run i 0%Q :: es), w', ts'. split; [|done]. cbn [exec_tasks]. by rewrite Hs.
  - exists (Reply i (inl TimeoutException) 0%Q :: es), w', ts'.
    split; [|done]. cbn [exec_tasks]. by rewrite Hs.
Qed.

(** X7. A run of the engine takes at most two events per task, hence at
    most six, and from whatever state it has reached some further events
    bring the engine to its return: the gather cannot get stuck. *)
Theorem engine_run_is_short_and_completable
    (intent : str) (es : list event) (w w' : world)
    (cs' : cstate (raising (option str)) (str * list str)) :
  exec es (w, start (fetch_government_context extract intent)) = Some (w', cs') →
  length es ≤ 2 * length (take 3 (default [] (GOVERNMENT_SOURCES !! intent)))
  ∧ length es ≤ 6
  ∧ ∃ es' w'' cs'',
      exec es' (w', cs') = Some (w'', cs'') ∧ is_Some (result_of cs'').
Proof.
  intros Hrun.
  set (srcs := take 3 (default [] (GOVERNMENT_SOURCES !! intent))).
  assert (Hn : length srcs ≤ 3) by (subst srcs; rewrite length_take; lia).
  destruct (engine_run_tasks _ _ _ _ _ _ Hrun) as [(-> & -> & ->)|(ts' & Ht & ->)].
  { split; [cbn; lia|]. split; [cbn; lia|]. exists [], w, (Finished ([], [])).
    split; [done|by eexists]. }
  fold srcs in Ht |- *.
  destruct (fetch_task_start extract srcs) as [Hinv _].
  destruct (exec_tasks_pending _ _ _ _ _ _ Hinv Ht) as [Hinv' Hle].
  rewrite pending_ready, length_fmap in Hle.
  split; [lia|]. split; [lia|].
  destruct (tasks_completable _ _ _ w' (Nat.le_refl _) Hinv')
    as (es' & w'' & ts'' & Hrun' & [rs Hrs]).
  exists es', w'', (Gathering ts'' (assemble srcs)). split.
  - by rewrite exec_Gathering, Hrun'.
  - cbn. rewrite Hrs. by eexists.
Qed.

End RunLength.

(** ** Runs served by the cache, and the requests of a run *)

Section ServedRuns.

Variable extract : str → raising str.

Lemma pending_done {A} (ts : list (task A)) : pending ts = 0 → is_Some (gathered ts).
Proof.
  induction ts as [|[p|u k|r] ts IH]; cbn; [by eexists|lia|lia|].
  intros [rs ->]%IH. by eexists.
Qed.

(** While the cache serves every source at every start time, tasks go
    from ready to done without a GET and the world stays as it is. *)
Lemma exec_tasks_served srcs es ts w w' ts' :
  (∀ now s, now ∈ start_times es → s ∈ srcs → serves w (url s) now = true) →
  Forall2 (λ s t, t = Ready (_fetch_one extract s) ∨ ∃ r, t = Done r) srcs ts →
  exec_tasks es w ts = Some (w', ts') →
  w' = w
  ∧ Forall2 (λ s t, t = Ready (_fetch_one extract s) ∨ ∃ r, t = Done r) srcs ts'
  ∧ pending ts' + 2 * length es = pending ts.
Proof.
  revert ts. induction es as [|e es IH]; intros ts Hserved Hinv; cbn.
  - intros [= <- <-]. split; [done|]. split; [done|lia].
  - destruct e as [i now|i r now]; cbn.
    + destruct (ts !! i) as [[p|u k|r]|] eqn:Hi; try done.
      destruct (Forall2_lookup_r _ _ _ _ _ Hinv Hi) as (s & Hs & [[= ->]|[? ?]]);
        [|done].
      assert (Hsv : serves w (url s) now = true).
      { apply Hserved; [cbn; left|by eapply list_elem_of_lookup_2]. }
      unfold serves in Hsv.
      destruct (_cache w !! url s) as [[c ts0]|] eqn:Hc; [|done].
      rewrite (advance_fetch_hit _ _ _ _ _ _ Hc Hsv). intros Hrun.
      apply IH in Hrun as (-> & Hinv' & Hp).
      * split; [done|]. split; [done|].
        pose proof (pending_insert ts i _
                      (Done (inr (Some (tagged (label s) c)))) Hi) as Hq.
        cbn in Hq. cbn [length]. lia.
      * intros now' s' Hnow Hs'. apply Hserved; [cbn; by right|done].
      * rewrite <- (list_insert_id _ _ _ Hs). apply Forall2_insert; [done|].
        right. by eexists.
    + destruct (ts !! i) as [[p|u k|r0]|] eqn:Hi; try done.
      by destruct (Forall2_lookup_r _ _ _ _ _ Hinv Hi) as (s & _ & [?|[? ?]]).
Qed.

(** X8. If at every time at which the run starts a task the cache serves
    each of the first three sources, the run sends no GET and leaves the
    world as it was; and once as many events have happened as there are
    tasks, the engine has returned. *)
Theorem served_run_sends_nothing
    (intent : str) (es : list event) (w w' : world)
    (cs' : cstate (raising (option str)) (str * list str)) :
  exec es (w, start (fetch_government_context extract intent)) = Some (w', cs') →
  (∀ now s, now ∈ start_times es →
            s ∈ take 3 (default [] (GOVERNMENT_SOURCES !! intent)) →
            serves w (url s) now = true) →
  w' = w
  ∧ (length es = length (take 3 (default [] (GOVERNMENT_SOURCES !! intent))) →
     is_Some (result_of cs')).
Proof.
  intros Hrun Hserved.
  set (srcs := take 3 (default [] (GOVERNMENT_SOURCES !! intent))) in *.
  destruct (engine_run_tasks _ _ _ _ _ _ Hrun) as [(-> & -> & ->)|(ts' & Ht & ->)].
  { split; [done|]. intros _. by eexists. }
  fold srcs in Ht.
  apply exec_tasks_served with (srcs := srcs) in Ht as (-> & _ & Hp); [|done|].
  - split; [done|]. intros Hlen. cbn.
    rewrite pending_ready, length_fmap in Hp.
    destruct (pending_done ts') as [rs ->]; [lia|by eexists].
  - clear. induction srcs; cbn; constructor; [by left|done].
Qed.

Lemma sent_by_insert srcs ts sent i t0 t :
  ts !! i = Some t0 → (∀ p, t ≠ Ready p) →
  sent_by srcs ts sent → sent_by srcs (<[i := t]> ts) sent.
Proof.
  intros Hi Ht Hsent u Hu. destruct (Hsent u Hu) as (j & s & t1 & Hs & -> & Hj & Hn).
  destruct (decide (i = j)) as [->|Hne].
  - exists j, s, t. split; [done|]. split; [done|]. split; [|done].
    apply list_lookup_insert_eq. by eapply lookup_lt_Some.
  - exists j, s, t1. split; [done|]. split; [done|]. split; [|done].
    by rewrite list_lookup_insert_ne.
Qed.

Lemma exec_tasks_requests srcs es ts w w' ts' sent0 :
  NoDup (url <$> srcs) →
  Forall2 (fetch_task extract) srcs ts →
  NoDup sent0 → sent_by srcs ts sent0 →
  exec_tasks es w ts = Some (w', ts') →
  ∃ sent, requests w' = requests w ++ sent
          ∧ NoDup (sent0 ++ sent) ∧ sent_by srcs ts' (sent0 ++ sent).
Proof.
  intros Hurls. revert ts w sent0.
  induction es as [|e es IH]; intros ts w sent0 Hinv Hnd Hsent; cbn.
  - intros [= <- <-]. exists []. by rewrite !app_nil_r.
  - destruct (step_tasks e w ts) as [[w1 ts1]|] eqn:Hs; [|done]. intros Hrun.
    destruct (step_tasks_fetch _ _ _ _ _ _ _ Hinv Hs) as [Hinv1 _].
    assert (∃ sent1, requests w1 = requests w ++ sent1
                     ∧ NoDup (sent0 ++ sent1) ∧ sent_by srcs ts1 (sent0 ++ sent1))
      as (sent1 & Hreq1 & Hnd1 & Hsent1).
    { destruct e as [i now|i r now]; cbn in Hs.
      - destruct (ts !! i) as [[p|u k|r]|] eqn:Hi; try done.
        destruct (Forall2_lookup_r _ _ _ _ _ Hinv Hi) as (s & Hsrc & Hp).
        destruct Hp as [[= ->]|[?|[?|[? ?]]]]; try done.
        destruct (serves w (url s) now) eqn:Hserve.
        + unfold serves in Hserve.
          destruct (_cache w !! url s) as [[c ts0]|] eqn:Hc; [|done].
          rewrite (advance_fetch_hit _ _ _ _ _ _ Hc Hserve) in Hs.
          injection Hs as <- <-. exists []. rewrite !app_nil_r.
          split; [done|]. split; [done|]. by eapply sent_by_insert.
        + rewrite (advance_fetch_miss _ _ _ _ Hserve) in Hs.
          injection Hs as <- <-. exists [url s]. split; [done|].
          assert (Hfresh : url s ∉ sent0).
          { intros (j & s' & t & Hs' & Heq & Hj & Hn)%Hsent.
            assert (i = j) as <-.
            { eapply NoDup_lookup; [exact Hurls| |];
                rewrite list_lookup_fmap; [by rewrite Hsrc|by rewrite Hs', Heq]. }
            rewrite Hi in Hj. injection Hj as <-. by destruct (Hn (_fetch_one extract s)). }
          split.
          * apply NoDup_app. split; [done|]. split; [|apply NoDup_singleton].
            intros u Hu ->%list_elem_of_singleton. done.
          * intros u [Hu| ->%list_elem_of_singleton]%elem_of_app.
            -- by eapply sent_by_insert.
            -- exists i, s, (Blocked (url s) (resume extract (url s) (label s))).
               split; [done|]. split; [done|]. split; [|done].
               apply list_lookup_insert_eq. by eapply lookup_lt_Some.
      - destruct (ts !! i) as [[p|u k|r0]|] eqn:Hi; try done.
        destruct (Forall2_lookup_r _ _ _ _ _ Hinv Hi) as (s & Hsrc & Hp).
        destruct Hp as [?|[[= -> ->]|[?|[? ?]]]]; try done.
        destruct (advance_resume_done extract (url s) (label s) r now w)
          as (v & w2 & Ha & Hreq).
        rewrite Ha in Hs. injection Hs as <- <-. exists []. rewrite !app_nil_r.
        split; [done|]. split; [done|]. by eapply sent_by_insert. }
    destruct (IH _ _ _ Hinv1 Hnd1 Hsent1 Hrun) as (sent & Hreq & Hnd' & Hsent').
    exists (sent1 ++ sent). rewrite Hreq, Hreq1, !app_assoc. done.
Qed.

Lemma configured_urls_NoDup intent :
  NoDup (url <$> take 3 (default [] (GOVERNMENT_SOURCES !! intent))).
Proof.
  destruct (GOVERNMENT_SOURCES !! intent) as [l|] eqn:Hl; [|constructor].
  apply configured in Hl as [-> | [-> | ->]]; cbn [default]; compute_done.
Qed.

(** X9. In a run of the engine [client.get] is called at most once per
    url: the urls it is called with are pairwise different, all among the
    first three that [get_available_sources] lists for the intent.  The
    requests the client sends on its own while it follows a redirect
    inside one call are not among the calls counted here. *)
Theorem client_get_called_once_per_url
    (intent : str) (es : list event) (w w' : world)
    (cs' : cstate (raising (option str)) (str * list str)) :
  exec es (w, start (fetch_government_context extract intent)) = Some (w', cs') →
  ∃ sent,
    requests w' = requests w ++ sent
    ∧ NoDup sent
    ∧ sent ⊆ take 3 (get_available_sources intent).
Proof.
  intros Hrun.
  set (srcs := take 3 (default [] (GOVERNMENT_SOURCES !! intent))).
  destruct (engine_run_tasks _ _ _ _ _ _ Hrun) as [(-> & -> & ->)|(ts' & Ht & ->)].
  { exists []. rewrite app_nil_r. split; [done|]. split; [constructor|].
    apply list_subseteq_nil. }
  fold srcs in Ht.
  destruct (fetch_task_start extract srcs) as [Hinv _].
  destruct (exec_tasks_requests srcs _ _ _ _ _ [] (configured_urls_NoDup intent)
              Hinv (NoDup_nil_2) ltac:(by intros ? ?%not_elem_of_nil) Ht)
    as (sent & Hreq & Hnd & Hsent).
  exists sent. split; [done|]. split; [done|].
  intros u Hu. destruct (Hsent u Hu) as (j & s & _ & Hs & -> & _).
  unfold get_available_sources. rewrite <- fmap_take.
  apply list_elem_of_fmap_2. by eapply list_elem_of_lookup_2.
Qed.

End ServedRuns.

(** ** The shape of the combined text *)

Section CombinedText.

Variable extract : str → raising str.

Lemma step_tasks_bounded srcs ts e w w' ts' :
  cache_ok w →
  Forall2 (fetch_task extract) srcs ts →
  Forall2 bounded_task srcs ts →
  step_tasks e w ts = Some (w', ts') →
  cache_ok w' ∧ Forall2 bounded_task srcs ts'.
Proof.
  intros Hok Hinv Hb Hs. split.
  - destruct (step_tasks_cache _ _ _ _ _ _ _ Hinv Hs)
      as [Hc|(i & s & r & now & stored & _ & _ & Hu & Hc)];
      unfold cache_ok; rewrite Hc; [done|].
    apply map_Forall_insert_2; [by eapply usable_bounded|done].
  - destruct e as [i now|i r now]; cbn in Hs.
    + destruct (ts !! i) as [[p|u k|r]|] eqn:Hi; try done.
      destruct (Forall2_lookup_r _ _ _ _ _ Hinv Hi) as (s & Hsrc & Hp).
      destruct Hp as [[= ->]|[?|[?|[? ?]]]]; try done.
      destruct (serves w (url s) now) eqn:Hserve.
      * unfold serves in Hserve.
        destruct (_cache w !! url s) as [[c ts0]|] eqn:Hc; [|done].
        rewrite (advance_fetch_hit _ _ _ _ _ _ Hc Hserve) in Hs.
        injection Hs as <- <-.
        rewrite <- (list_insert_id _ _ _ Hsrc). apply Forall2_insert; [done|].
        intros r [= <-]. right. exists c. split; [done|].
        apply (map_Forall_lookup_1 _ _ _ _ Hok Hc).
      * rewrite (advance_fetch_miss _ _ _ _ Hserve) in Hs. injection Hs as <- <-.
        rewrite <- (list_insert_id _ _ _ Hsrc). by apply Forall2_insert.
    + destruct (ts !! i) as [[p|u k|r0]|] eqn:Hi; try done.
      destruct (Forall2_lookup_r _ _ _ _ _ Hinv Hi) as (s & Hsrc & Hp).
      destruct Hp as [?|[[= -> ->]|[?|[? ?]]]]; try done.
      rewrite advance_resume in Hs.
      destruct (usable extract r) as [stored|] eqn:Hu; injection Hs as <- <-;
        rewrite <- (list_insert_id _ _ _ Hsrc); (apply Forall2_insert; [done|]);
        intros r' [= <-]; [right|by left].
      exists stored. split; [done|by eapply usable_bounded].
Qed.

Lemma exec_tasks_bounded srcs es ts w w' ts' :
  cache_ok w →
  Forall2 (fetch_task extract) srcs ts →
  Forall2 bounded_task srcs ts →
  exec_tasks es w ts = Some (w', ts') →
  cache_ok w' ∧ Forall2 bounded_task srcs ts'.
Proof.
  revert ts w. induction es as [|e es IH]; intros ts w Hok Hinv Hb; cbn.
  - by intros [= <- <-].
  - destruct (step_tasks e w ts) as [[w1 ts1]|] eqn:Hs; [|done].
    destruct (step_tasks_fetch _ _ _ _ _ _ _ Hinv Hs) as [Hinv1 _].
    destruct (step_tasks_bounded _ _ _ _ _ _ Hok Hinv Hb Hs) as [Hok1 Hb1].
    by apply IH.
Qed.

Lemma length_tagged l stored : length (tagged l stored) = length l + 11 + length stored.
Proof.
  unfold tagged. rewrite !length_app.
  change (length (lit "[Source: ")) with 9. change (length (lit "]")) with 1.
  change (length nl) with 1. lia.
Qed.

(** The accepted results are the texts of the sources that have one, each
    under the label of its source. *)
Lemma hits_blocks srcs rs :
  Forall2 bounded_result srcs rs →
  ∃ blocks : list (str * str),
    hits (zip srcs rs) = (λ b, (tagged b.1 b.2, b.1)) <$> blocks
    ∧ Forall (λ b, bounded b.2) blocks.
Proof.
  induction 1 as [|s r srcs rs Hr _ (blocks & Hh & Hb)]; [by exists []|].
  change (zip (s :: srcs) (r :: rs)) with ((s, r) :: zip srcs rs).
  cbn [hits omap list_omap]. fold (hits (zip srcs rs)). rewrite Hh.
  destruct Hr as [-> |(stored & -> & Hs)].
  - by exists blocks.
  - exists ((label s, stored) :: blocks). split; [done|by constructor].
Qed.

(** X6. Started from a cache within bounds, the engine returns a
    combined text made of one block per label of sources_used, in the same
    order: the line [[Source: label]] followed by a text of 100 to 3500
    characters, blocks joined by the separator.  With labels of at most
    78 characters the combined text has at most 7185 characters. *)
Theorem combined_text_is_labelled_blocks
    (intent : str) (es : list event) (w w' : world)
    (cs' : cstate (raising (option str)) (str * list str))
    (combined : str) (used : list str) :
  cache_ok w →
  exec es (w, start (fetch_government_context extract intent)) = Some (w', cs') →
  result_of cs' = Some (combined, used) →
  ∃ texts,
    length texts = length used
    ∧ Forall bounded texts
    ∧ combined = join separator (zip_with tagged used texts)
    ∧ length combined
      ≤ 2 * (MAX_LABEL_LEN + 11 + MAX_CHARS_PER_SOURCE) + length separator.
Proof.
  intros Hok Hrun Hres.
  set (srcs := take 3 (default [] (GOVERNMENT_SOURCES !! intent))).
  destruct (engine_run_tasks _ _ _ _ _ _ Hrun) as [(-> & -> & ->)|(ts' & Ht & ->)].
  { cbn in Hres. injection Hres as <- <-. exists []. repeat split; try done.
    apply Nat.le_0_l. }
  fold srcs in Ht, Hres. cbn in Hres.
  destruct (gathered ts') as [rs|] eqn:Hg; [|done]. injection Hres as Hres.
  apply gathered_Some in Hg as ->.
  destruct (fetch_task_start extract srcs) as [Hinv _].
  assert (Hb0 : Forall2 bounded_task srcs (Ready <$> (_fetch_one extract <$> srcs))).
  { clear. induction srcs; cbn; constructor; done. }
  destruct (exec_tasks_bounded srcs _ _ _ _ _ Hok Hinv Hb0 Ht) as [_ Hb].
  assert (Hrs : Forall2 bounded_result srcs rs).
  { rewrite Forall2_fmap_r in Hb. eapply Forall2_impl; [exact Hb|].
    intros s r Hr. by apply Hr. }
  destruct (hits_blocks _ _ Hrs) as (blocks & Hh & Hbl).
  rewrite assemble_spec, Hh, <- fmap_take in Hres.
  set (bs := take 2 blocks) in *.
  assert (Hbs : Forall (λ b, bounded b.2) bs) by by apply Forall_take.
  assert (Hlen : length bs ≤ 2) by (subst bs; rewrite length_take; lia).
  assert (Hlab : Forall (λ b, length b.1 ≤ MAX_LABEL_LEN) bs).
  { assert (Hall : Forall (λ l, length l ≤ MAX_LABEL_LEN) (label <$> srcs)).
    { subst srcs. clear.
      destruct (GOVERNMENT_SOURCES !! intent) as [l|] eqn:Hl; [|constructor].
      apply configured in Hl as [-> | [-> | ->]]; cbn [default]; compute_done. }
    assert (Hsub : bs.*1 `sublist_of` (label <$> srcs)).
    { trans (blocks.*1); [apply fmap_sublist, sublist_take|].
      pose proof (hits_labels (zip srcs rs)) as Hl. rewrite Hh in Hl.
      rewrite <- list_fmap_compose in Hl.
      etrans; [exact Hl|]. apply fmap_sublist, zip_fst_sublist. }
    apply sublist_subseteq in Hsub. rewrite Forall_forall in Hall.
    apply Forall_forall. intros b Hb'. apply Hall, Hsub. by apply list_elem_of_fmap_2. }
  injection Hres as <- <-.
  exists (bs.*2). rewrite <- !list_fmap_compose, !length_fmap.
  split; [done|]. split; [by apply Forall_fmap|]. split.
  - f_equal. clear. induction bs as [|[l t] bs IH]; cbn; [done|]. by f_equal.
  - unfold bounded in Hbs. clear -Hbs Hlab Hlen.
    change (length separator) with 7.
    destruct bs as [|[l1 t1] [|[l2 t2] [|]]]; cbn [fmap list_fmap join compose fst snd];
      [cbn [length]; lia| | |cbn in Hlen; lia].
    + inversion_clear Hbs as [|? ? [_ H1] _]. inversion_clear Hlab as [|? ? H2 _].
      rewrite length_tagged. cbn [fst snd] in *. lia.
    + inversion_clear Hbs as [|? ? [_ H1] Hbs']. inversion_clear Hbs' as [|? ? [_ H3] _].
      inversion_clear Hlab as [|? ? H2 Hlab']. inversion_clear Hlab' as [|? ? H4 _].
      rewrite !length_app, !length_tagged. change (length separator) with 7.
      cbn [fst snd] in *. lia.
Qed.

(** X10. Whatever run of the context steps has produced a result:
    context_source is "WEB+RAG" with a non-empty sources_used, or "RAG"
    with an empty one; sources_used holds at most two labels, taken in
    order from the first three sources of the dominant intent; and the
    fused context ends with the RAG context. *)
Theorem pipeline_metadata_invariant
    (rag_context : str) (metadatas : option (list (list (gmap str str))))
    (es : list event) (w w' : world)
    (cs' : cstate (raising (option str)) fused) (out : fused) :
  exec es (w, start (_call_groq_analyze extract rag_context metadatas)) = Some (w', cs') →
  result_of cs' = Some out →
  (context_source out = WEB_RAG ∧ sources_used out ≠ []
   ∨ context_source out = RAG ∧ sources_used out = [])
  ∧ length (sources_used out) ≤ 2
  ∧ sources_used out
      `sublist_of` label <$> take 3 (default []
                               (GOVERNMENT_SOURCES !! dominant_intent_of metadatas))
  ∧ rag_context `suffix_of` fused_context out.
Proof.
  unfold _call_groq_analyze. cbv zeta. rewrite start_coro_map, exec_cstate_map.
  destruct (exec es _) as [[w0 cs0]|] eqn:Hrun; [|done]. cbn. intros [= <- <-].
  rewrite result_of_cstate_map.
  destruct (result_of cs0) as [[web used]|] eqn:Hres; [|done]. cbn. intros [= <-].
  destruct (engine_result _ _ _ _ _ _ _ Hrun Hres) as (rs & _ & _ & Hout).
  symmetry in Hout. apply assemble_shape in Hout as (Hlen & Hsub & Hnil).
  unfold fuse_contexts.
  destruct (truthy web && bool_decide (300 ≤ length web)) eqn:Hweb;
    cbn [context_source sources_used fused_context].
  - apply andb_true_iff in Hweb as [Hweb _].
    split; [|split; [done|split; [done|]]].
    + left. split; [done|]. intros Hu. apply Hnil in Hu as ->. done.
    + exists (live_banner ++ web ++ nl ++ nl ++ additional_banner).
      by rewrite <- !app_assoc.
  - split; [by right|]. split; [cbn; lia|]. split; [apply sublist_nil_l|].
    by apply suffix_app_r.
Qed.

(** X3. With the paragraph filter as extractor, a 200 response in which
    no fragment qualifies is answered [None] and stores nothing, and one
    with at least three qualifying fragments is always long enough: its
    text, cut to 3500 characters, is stored and returned. *)
Theorem paragraph_count_decides_fetch
    (parse : str → raising (option (list str)))
    (s : source) (w : world) (now : Q) (resp : response)
    (main_texts : option (list str)) :
  status_code resp = 200%Z →
  parse (text resp) = inr main_texts →
  let qualifying := filter (λ t, kept t) (default [] main_texts) in
  let outcome := advance (resume (_extract_text parse) (url s) (label s) (inr resp)) now w in
  (qualifying = [] → outcome = (Done (inr None), w))
  ∧ (3 ≤ length qualifying →
     ∃ stored,
       stored = take MAX_CHARS_PER_SOURCE (extract_from main_texts)
       ∧ bounded stored
       ∧ outcome = (Done (inr (Some (tagged (label s) stored))),
                    World (<[url s := (stored, now)]> (_cache w)) (requests w))).
Proof.
  intros Hst Hparse qualifying outcome. subst outcome.
  rewrite advance_resume. unfold usable, _extract_text. rewrite Hparse.
  rewrite bool_decide_eq_false_2 by (intros ?; congruence).
  assert (Hext : extract_from main_texts = join nl (take MAX_PARAGRAPHS qualifying)).
  { apply extract_from_spec. }
  split.
  - intros Hq. rewrite Hext, Hq. cbn. done.
  - intros Hq.
    assert (Hlen : 125 ≤ length (extract_from main_texts)).
    { rewrite Hext.
      pose proof (length_join_lines (take MAX_PARAGRAPHS qualifying)) as Hj.
      rewrite length_take in Hj. unfold MAX_PARAGRAPHS in *.
      enough (42 * (50 `min` length qualifying)
              ≤ length (join nl (take 50 qualifying)) + 1) by lia.
      apply Hj, Forall_take, Forall_forall. intros t [Hk _]%list_elem_of_filter.
      unfold kept in Hk. apply Is_true_true, andb_true_iff in Hk as [H1 _].
      by apply bool_decide_eq_true in H1. }
    rewrite bool_decide_eq_false_2 by (unfold MIN_CONTENT_LEN; lia).
    eexists. split; [done|]. split; [|done].
    unfold bounded. rewrite length_take.
    unfold MIN_CONTENT_LEN, MAX_CHARS_PER_SOURCE. lia.
Qed.

End CombinedText.

(** ** The helpers of [main.py] *)

Lemma context_parts_inr pairs parts :
  context_parts pairs = inr parts →
  Forall2 (λ part p, ∃ topic section,
             p.2 !! lit "topic" = Some topic ∧ p.2 !! lit "section" = Some section
             ∧ part = chunk_header topic section ++ nl ++ p.1) parts pairs.
Proof.
  revert parts. induction pairs as [|[doc meta] rest IH]; intros parts; cbn.
  - intros [= <-]. constructor.
  - unfold subscript.
    destruct (meta !! lit "topic") as [topic|] eqn:Ht; [|done].
    destruct (meta !! lit "section") as [section|] eqn:Hs; [|done].
    destruct (context_parts rest) as [e|ps]; [done|]. intros [= <-].
    constructor; [by exists topic, section|by apply IH].
Qed.

Lemma context_parts_inl pairs e :
  context_parts pairs = inl e →
  ∃ p, p ∈ pairs ∧ (p.2 !! lit "topic" = None ∨ p.2 !! lit "section" = None)
       ∧ ∃ key, e = KeyError key.
Proof.
  induction pairs as [|[doc meta] rest IH]; cbn; [done|].
  unfold subscript.
  destruct (meta !! lit "topic") as [topic|] eqn:Ht.
  2:{ intros [= <-]. exists (doc, meta). split; [left|]. split; [by left|by eexists]. }
  destruct (meta !! lit "section") as [section|] eqn:Hs.
  2:{ intros [= <-]. exists (doc, meta). split; [left|]. split; [by right|by eexists]. }
  destruct (context_parts rest) as [e'|ps]; [|done]. intros [= <-].
  destruct IH as (p & Hp & Hk & He); [done|]. exists p. split; [by right|done].
Qed.

(** X11. [semantic_retrieve] returns a context exactly when every paired
    metadata dict has a topic and a section; otherwise it raises a
    KeyError and returns no partial context.  The context holds one block
    per pair of document and metadata, each ending with its document, and
    is empty exactly when there is no pair. *)
Theorem semantic_retrieve_all_or_nothing
    (docs : list str) (metas : list (gmap str str))
    (more_docs : list (list str)) (more_metas : list (list (gmap str str))) :
  let pairs := zip docs metas in
  let result := semantic_retrieve (docs :: more_docs) (metas :: more_metas) in
  (Forall (λ p, is_Some (p.2 !! lit "topic") ∧ is_Some (p.2 !! lit "section")) pairs
   ↔ ∃ context, result = inr context)
  ∧ (∀ e, result = inl e → ∃ key, e = KeyError key)
  ∧ (∀ context, result = inr context →
       (context = [] ↔ docs = [] ∨ metas = [])
       ∧ ∃ parts,
           context = join (nl ++ nl) parts
           ∧ length parts = length docs `min` length metas
           ∧ Forall2 (λ part p, ∃ header, part = header ++ nl ++ p.1) parts pairs).
Proof.
  intros pairs result. subst result. unfold semantic_retrieve. cbn [first_item].
  fold pairs. destruct (context_parts pairs) as [e|parts] eqn:Hp.
  - apply context_parts_inl in Hp as (p & Hin & Hk & key & ->).
    split; [|split; [|done]].
    + split; [|by intros [? ?]]. intros Hall. rewrite Forall_forall in Hall.
      destruct (Hall p Hin) as [[? Ht] [? Hs]]. destruct Hk; congruence.
    + intros e [= <-]. by eexists.
  - pose proof (context_parts_inr _ _ Hp) as Hparts.
    split; [|split; [done|]].
    + split; [by eexists|]. intros _.
      apply Forall_forall. intros p Hin.
      apply list_elem_of_lookup_1 in Hin as [i Hi].
      destruct (Forall2_lookup_r _ _ _ _ _ Hparts Hi)
        as (part & _ & topic & section & -> & -> & _).
      split; by eexists.
    + intros context [= <-].
      assert (Hlen : length parts = length docs `min` length metas).
      { rewrite (Forall2_length _ _ _ Hparts). subst pairs. apply length_zip_with. }
      split; [|exists parts; split; [done|split; [done|]]].
      * rewrite join_nil.
        -- split.
           ++ intros ->. cbn in Hlen. destruct docs, metas; cbn in *; auto; lia.
           ++ intros Hnil. apply length_zero_iff_nil. rewrite Hlen.
              destruct Hnil as [-> | ->]; cbn; lia.
        -- eapply Forall2_Forall_l; [exact Hparts|].
           apply Forall_forall. intros p _ part (topic & section & _ & _ & ->).
           unfold chunk_header. change (lit "[") with [91%N]. done.
      * eapply Forall2_impl; [exact Hparts|].
        intros part p (topic & section & _ & _ & ->). by eexists.
Qed.

Lemma missing_loop_spec items data fields questions :
  missing_loop items data fields questions
  = (fields ++ (filter (λ fq, unanswered (data !! fq.1)) items).*1,
     questions ++ (filter (λ fq, unanswered (data !! fq.1)) items).*2).
Proof.
  revert fields questions.
  induction items as [|[field question] rest IH]; intros fields questions.
  - cbn. by rewrite !app_nil_r.
  - cbn [missing_loop]. rewrite filter_cons. cbn [fst].
    destruct (unanswered (data !! field)) eqn:Hu.
    + rewrite decide_True by done. rewrite IH. cbn. by rewrite <- !app_assoc.
    + rewrite decide_False by (cbn; tauto). apply IH.
Qed.

(** X12. [_get_missing] returns as many questions as fields; field i and
    question i are an entry of the intent's question table, entries come
    in table order, and an entry is returned exactly when its field is
    absent from the data, null, or an empty list.  For an intent other
    than the three known ones both lists are empty. *)
Theorem missing_fields_are_the_unanswered_questions
    (data : gmap str json) (intent : str) (fields questions : list str) :
  _get_missing data intent = (fields, questions) →
  length fields = length questions
  ∧ zip fields questions `sublist_of` questions_for intent
  ∧ (∀ field question,
       (field, question) ∈ zip fields questions
       ↔ (field, question) ∈ questions_for intent ∧ unanswered (data !! field) = true)
  ∧ (intent ≠ lit "RTI" → intent ≠ lit "Domestic Violence" → intent ≠ lit "Divorce" →
     fields = [] ∧ questions = []).
Proof.
  unfold _get_missing. rewrite missing_loop_spec. cbn [app]. intros [= <- <-].
  set (hit := filter (λ fq, unanswered (data !! fq.1)) (questions_for intent)).
  assert (Hzip : zip (hit.*1) (hit.*2) = hit).
  { clear. induction hit as [|[f q] hit IH]; cbn; [done|]. by f_equal. }
  rewrite Hzip, !length_fmap. split; [done|]. split; [apply sublist_filter|].
  split.
  - intros field question. subst hit. rewrite list_elem_of_filter. cbn.
    rewrite Is_true_true. tauto.
  - intros H1 H2 H3. subst hit. unfold questions_for.
    by rewrite !bool_decide_eq_false_2.
Qed.

Section RouteProperties.
Variable build_rti_pdf build_dv_pdf build_divorce_pdf : json → str → option str.
Variable str_of_http_exception : Z → str → str.
Variable format_value : json → str.

#[local] Abbreviation route := (generate_form_pdf build_rti_pdf build_dv_pdf build_divorce_pdf
                     str_of_http_exception format_value).

(** X13. [generate_form_pdf] never answers with status 400: every
    HTTPException it raises has status 500, the one for an unknown intent
    included, whose 400 is caught by the handler of its own try block.  A
    body is returned only for one of the three intents, with the url
    "/static/" followed by the file name; a request without an intent is
    handled as "RTI". *)
Theorem form_pdf_route_never_answers_400
    (static_dir : str) (request : gmap str json) (pdf_id : str) :
  let intent := default (JString (lit "RTI")) (request !! lit "intent") in
  let known := is_string intent (lit "RTI")
               || is_string intent (lit "Domestic Violence")
               || is_string intent (lit "Divorce") in
  (∀ status detail,
     route static_dir request pdf_id = HTTPException status detail → status = 500%Z)
  ∧ (∀ body, route static_dir request pdf_id = Ok body →
       known = true
       ∧ pdf_intent body = intent
       ∧ pdf_filename body = lit "nyaya_form_" ++ pdf_id ++ lit ".pdf"
       ∧ pdf_url body = lit "/static/" ++ pdf_filename body)
  ∧ (known = false →
     route static_dir request pdf_id
     = HTTPException 500
         (lit "PDF generation error: "
            ++ str_of_http_exception 400 (lit "Unknown intent: " ++ format_value intent)))
  ∧ (request !! lit "intent" = None →
     route static_dir request pdf_id
     = match build_rti_pdf (default (JObject []) (request !! lit "form_data"))
               (static_dir ++ lit "nyaya_form_" ++ pdf_id ++ lit ".pdf") with
       | Some exc => HTTPException 500 (lit "PDF generation error: " ++ exc)
       | None => Ok (FormPdf (lit "/static/" ++ lit "nyaya_form_" ++ pdf_id ++ lit ".pdf")
                       (lit "nyaya_form_" ++ pdf_id ++ lit ".pdf") (JString (lit "RTI")))
       end).
Proof.
  intros intent known. unfold generate_form_pdf. fold intent.
  split; [|split; [|split]].
  - intros status detail. destruct (build_for _ _ _ _ _ _ _ _); [|done].
    by intros [= <- _].
  - intros body. unfold build_for. subst known.
    destruct (is_string intent (lit "RTI")) eqn:H1;
      [|destruct (is_string intent (lit "Domestic Violence")) eqn:H2;
        [|destruct (is_string intent (lit "Divorce")) eqn:H3; [|done]]];
      cbn [orb];
      match goal with |- context [match ?b with _ => _ end] => destruct b end;
      try done; by intros [= <-].
  - subst known. intros Hk. apply orb_false_iff in Hk as [Hk H3].
    apply orb_false_iff in Hk as [H1 H2]. unfold build_for. by rewrite H1, H2, H3.
  - intros Hnone. subst intent. rewrite Hnone. cbn [default from_option id].
    unfold build_for. cbn [is_string].
    by rewrite bool_decide_eq_true_2.
Qed.

End RouteProperties.

(** * The further properties at concrete inputs *)

Lemma paragraph_count_decides_fetch_witness :
  status_code (page 0) = 200%Z
  ∧ sample_parse (text (page 0)) = inr (Some sample_fragments)
  ∧ ∃ stored,
      stored = take MAX_CHARS_PER_SOURCE (extract_from (Some sample_fragments))
      ∧ bounded stored
      ∧ advance (resume (_extract_text sample_parse) (url rti_online)
                   (label rti_online) (inr (page 0))) 1%Q empty_world
        = (Done (inr (Some (tagged (label rti_online) stored))),
           World (<[url rti_online := (stored, 1%Q)]> (_cache empty_world))
             (requests empty_world)).
Proof.
  apply premises2; [reflexivity | reflexivity |]. intros H1 H2.
  apply (proj2 (paragraph_count_decides_fetch sample_parse rti_online empty_world
                  1%Q (page 0) (Some sample_fragments) H1 H2)).
  vm_compute. lia.
Defined.

Lemma run_keeps_cache_bounded_witness :
  ∃ w' cs',
    exec RTI_run (empty_world, start (fetch_government_context plain_text (lit "RTI")))
      = Some (w', cs')
    ∧ (cache_ok empty_world → cache_ok w')
    ∧ (∀ u stored ts, _cache w' !! u = Some (stored, ts) →
            _cache empty_world !! u = Some (stored, ts) ∨ bounded stored).
Proof.
  eexists _, _. apply premises1.
  - run_engine.
  - apply (run_keeps_cache_bounded plain_text (lit "RTI") RTI_run empty_world).
Defined.

Lemma run_touches_only_its_urls_witness :
  ∃ w' cs',
    exec RTI_run (empty_world, start (fetch_government_context plain_text (lit "RTI")))
      = Some (w', cs')
    ∧ (∀ u, is_Some (_cache empty_world !! u) → is_Some (_cache w' !! u))
    ∧ (∀ u, u ∉ url <$> take 3 (default [] (GOVERNMENT_SOURCES !! lit "RTI")) →
            _cache w' !! u = _cache empty_world !! u).
Proof.
  eexists _, _. apply premises1.
  - run_engine.
  - apply (run_touches_only_its_urls plain_text (lit "RTI") RTI_run empty_world).
Defined.

Lemma combined_text_is_labelled_blocks_witness :
  ∃ w' cs' combined used,
    cache_ok empty_world
    ∧ exec RTI_run (empty_world, start (fetch_government_context plain_text (lit "RTI")))
      = Some (w', cs')
    ∧ result_of cs' = Some (combined, used)
    ∧ ∃ texts,
        length texts = length used
        ∧ Forall bounded texts
        ∧ combined = join separator (zip_with tagged used texts)
        ∧ length combined
          ≤ 2 * (MAX_LABEL_LEN + 11 + MAX_CHARS_PER_SOURCE) + length separator.
Proof.
  eexists _, _, _, _. apply premises3.
  - apply map_Forall_empty.
  - run_engine.
  - evaluate.
  - apply (combined_text_is_labelled_blocks plain_text (lit "RTI") RTI_run empty_world).
Defined.

Lemma engine_run_is_short_and_completable_witness :
  ∃ w' cs',
    exec RTI_two_answered
      (empty_world, start (fetch_government_context plain_text (lit "RTI")))
      = Some (w', cs')
    ∧ length RTI_two_answered
      ≤ 2 * length (take 3 (default [] (GOVERNMENT_SOURCES !! lit "RTI")))
    ∧ length RTI_two_answered ≤ 6
    ∧ ∃ es' w'' cs'',
        exec es' (w', cs') = Some (w'', cs'') ∧ is_Some (result_of cs'').
Proof.
  eexists _, _. apply premises1.
  - run_engine.
  - apply (engine_run_is_short_and_completable plain_text (lit "RTI")
             RTI_two_answered empty_world).
Defined.

Lemma served_run_sends_nothing_witness :
  ∃ w' cs',
    exec RTI_starts (warm_world, start (fetch_government_context plain_text (lit "RTI")))
      = Some (w', cs')
    ∧ (∀ now s, now ∈ start_times RTI_starts →
                s ∈ take 3 (default [] (GOVERNMENT_SOURCES !! lit "RTI")) →
                serves warm_world (url s) now = true)
    ∧ w' = warm_world
    ∧ (length RTI_starts = length (take 3 (default [] (GOVERNMENT_SOURCES !! lit "RTI"))) →
       is_Some (result_of cs')).
Proof.
  eexists _, _. apply premises2.
  - run_engine.
  - assert (Hall : Forall (λ now,
                     Forall (λ s, serves warm_world (url s) now = true)
                       (take 3 (default [] (GOVERNMENT_SOURCES !! lit "RTI"))))
                     (start_times RTI_starts)) by compute_done.
    intros now s Hnow Hs. rewrite Forall_forall in Hall.
    specialize (Hall now Hnow). rewrite Forall_forall in Hall. by apply Hall.
  - apply (served_run_sends_nothing plain_text (lit "RTI") RTI_starts warm_world).
Defined.

Lemma client_get_called_once_per_url_witness :
  ∃ w' cs',
    exec RTI_run (empty_world, start (fetch_government_context plain_text (lit "RTI")))
      = Some (w', cs')
    ∧ ∃ sent,
        requests w' = requests empty_world ++ sent
        ∧ NoDup sent
        ∧ sent ⊆ take 3 (get_available_sources (lit "RTI")).
Proof.
  eexists _, _. apply premises1.
  - run_engine.
  - apply (client_get_called_once_per_url plain_text (lit "RTI") RTI_run empty_world).
Defined.

Lemma pipeline_metadata_invariant_witness :
  ∃ w' cs' out,
    exec RTI_run (empty_world, start (_call_groq_analyze plain_text (lit "rag") None))
      = Some (w', cs')
    ∧ result_of cs' = Some out
    ∧ (context_source out = WEB_RAG ∧ sources_used out ≠ []
       ∨ context_source out = RAG ∧ sources_used out = [])
    ∧ length (sources_used out) ≤ 2
    ∧ sources_used out
        `sublist_of` label <$> take 3 (default []
                                 (GOVERNMENT_SOURCES !! dominant_intent_of None))
    ∧ lit "rag" `suffix_of` fused_context out.
Proof.
  eexists _, _, _. apply premises2.
  - apply analyze_exec; run_engine.
  - evaluate.
  - apply (pipeline_metadata_invariant plain_text (lit "rag") None RTI_run empty_world).
Defined.

Lemma missing_fields_are_the_unanswered_questions_witness :
  ∃ fields questions,
    _get_missing sample_form (lit "RTI") = (fields, questions)
    ∧ length fields = length questions
    ∧ zip fields questions `sublist_of` questions_for (lit "RTI")
    ∧ (∀ field question,
         (field, question) ∈ zip fields questions
         ↔ (field, question) ∈ questions_for (lit "RTI")
           ∧ unanswered (sample_form !! field) = true)
    ∧ (lit "RTI" ≠ lit "RTI" → lit "RTI" ≠ lit "Domestic Violence" →
       lit "RTI" ≠ lit "Divorce" → fields = [] ∧ questions = []).
Proof.
  eexists _, _. apply premises1.
  - evaluate.
  - apply (missing_fields_are_the_unanswered_questions sample_form (lit "RTI")).
Defined.

(** With [sample_form] the RTI questions for the name are answered; the
    phone, which is null, and the ten fields that are absent are asked
    for, in table order. *)
Example sample_form_missing :
  (_get_missing sample_form (lit "RTI")).1
  = [ lit "address"; lit "phone"; lit "email"; lit "bpl_status";
      lit "department_name"; lit "department_address"; lit "pio_name";
      lit "information_requested"; lit "time_period"; lit "format_required";
      lit "fee_payment_mode" ].
Proof. vm_compute. reflexivity. Qed.
